(** * Snake Xenia: the simulation core of [snake_game.py]

    A shallow embedding of the game's globals, its helper functions and one
    iteration of its main loop, followed by the properties of the
    specification that concern them.

    Modelling decisions, all read off the source:
    - every coordinate is created from integer constants (the origin,
      [GRID_SIZE] steps, [randrange] draws and the off-screen cell), so
      coordinates are exact integers and live in [Z];
    - [delay] is a Python float (binary64): it is kept as a primitive
      binary64 float, with the source's subtraction and comparison;
    - [direction] is a Python string and stays a string;
    - the [random] module is an oracle: an arbitrary sequence of raw draws
      together with the number of draws consumed so far;
    - drawing (pen, colours, shapes, [screen.update], [time.sleep]) changes
      none of the globals modelled here and is left out. *)

From Stdlib Require Import ZArith Floats String List Bool Lia.
From stdpp Require Import base list.
Import ListNotations.

Set Warnings "-inexact-float".
Local Open Scope Z_scope.

(** ** Configuration *)

Definition WIDTH : Z := 600.
Definition HEIGHT : Z := 600.
Definition INITIAL_SPEED : float := 0.12%float.
Definition SPEED_DECREMENT : float := 0.005%float.
Definition SPEED_MIN : float := 0.03%float.
Definition FOOD_SCORE : Z := 10.
Definition XENIA_SCORE : Z := 40.
Definition LEVEL_UP_FOOD_COUNT : Z := 5.
Definition WALLS_ENABLED : bool := true.
Definition GRID_SIZE : Z := 20.
Definition MAX_FOOD_TRIES : nat := 50.

(** ** Turtles

    Of a [turtle.Turtle] the game reads and writes the position and the
    visibility only. *)

Record Turtle : Type := mkTurtle {
  xcor : Z;
  ycor : Z;
  isvisible : bool
}.

(** [turtle.Turtle()]: a fresh turtle sits at the origin and is shown. *)
Definition new_turtle : Turtle := mkTurtle 0 0 true.

Definition goto (x y : Z) (t : Turtle) : Turtle := mkTurtle x y (isvisible t).
Definition setx (x : Z) (t : Turtle) : Turtle := mkTurtle x (ycor t) (isvisible t).
Definition sety (y : Z) (t : Turtle) : Turtle := mkTurtle (xcor t) y (isvisible t).
Definition showturtle (t : Turtle) : Turtle := mkTurtle (xcor t) (ycor t) true.
Definition hideturtle (t : Turtle) : Turtle := mkTurtle (xcor t) (ycor t) false.

Definition position (t : Turtle) : Z * Z := (xcor t, ycor t).

(** [a.distance(b) < r] for a positive integer [r]: the Euclidean distance
    of two integer points is below [r] exactly when the squared distance is
    below [r * r]. *)
Definition distance_squared (a b : Turtle) : Z :=
  (xcor a - xcor b) * (xcor a - xcor b) + (ycor a - ycor b) * (ycor a - ycor b).

Definition distance_lt (a b : Turtle) (r : Z) : bool :=
  distance_squared a b <? r * r.

(** [create_snake_head]: the head is created once and sent to the origin. *)
Definition create_snake_head : Turtle := goto 0 0 new_turtle.

(** ** The globals *)

Record Game : Type := mkGame {
  delay : float;
  score : Z;
  high_score : Z;
  snake_segments : list Turtle;
  direction : string;
  food : option Turtle;
  xenia : option Turtle;
  paused : bool;
  foods_eaten_in_level : Z;
  head : Turtle;
  (* state of the [random] module *)
  entropy : nat -> nat;
  drawn : nat
}.

Definition with_delay (v : float) (g : Game) : Game :=
  mkGame v (score g) (high_score g) (snake_segments g) (direction g) (food g)
    (xenia g) (paused g) (foods_eaten_in_level g) (head g) (entropy g) (drawn g).
Definition with_score (v : Z) (g : Game) : Game :=
  mkGame (delay g) v (high_score g) (snake_segments g) (direction g) (food g)
    (xenia g) (paused g) (foods_eaten_in_level g) (head g) (entropy g) (drawn g).
Definition with_high_score (v : Z) (g : Game) : Game :=
  mkGame (delay g) (score g) v (snake_segments g) (direction g) (food g)
    (xenia g) (paused g) (foods_eaten_in_level g) (head g) (entropy g) (drawn g).
Definition with_segments (v : list Turtle) (g : Game) : Game :=
  mkGame (delay g) (score g) (high_score g) v (direction g) (food g)
    (xenia g) (paused g) (foods_eaten_in_level g) (head g) (entropy g) (drawn g).
Definition with_direction (v : string) (g : Game) : Game :=
  mkGame (delay g) (score g) (high_score g) (snake_segments g) v (food g)
    (xenia g) (paused g) (foods_eaten_in_level g) (head g) (entropy g) (drawn g).
Definition with_food (v : option Turtle) (g : Game) : Game :=
  mkGame (delay g) (score g) (high_score g) (snake_segments g) (direction g) v
    (xenia g) (paused g) (foods_eaten_in_level g) (head g) (entropy g) (drawn g).
Definition with_xenia (v : option Turtle) (g : Game) : Game :=
  mkGame (delay g) (score g) (high_score g) (snake_segments g) (direction g) (food g)
    v (paused g) (foods_eaten_in_level g) (head g) (entropy g) (drawn g).
Definition with_paused (v : bool) (g : Game) : Game :=
  mkGame (delay g) (score g) (high_score g) (snake_segments g) (direction g) (food g)
    (xenia g) v (foods_eaten_in_level g) (head g) (entropy g) (drawn g).
Definition with_foods_eaten (v : Z) (g : Game) : Game :=
  mkGame (delay g) (score g) (high_score g) (snake_segments g) (direction g) (food g)
    (xenia g) (paused g) v (head g) (entropy g) (drawn g).
Definition with_head (v : Turtle) (g : Game) : Game :=
  mkGame (delay g) (score g) (high_score g) (snake_segments g) (direction g) (food g)
    (xenia g) (paused g) (foods_eaten_in_level g) v (entropy g) (drawn g).
Definition with_drawn (v : nat) (g : Game) : Game :=
  mkGame (delay g) (score g) (high_score g) (snake_segments g) (direction g) (food g)
    (xenia g) (paused g) (foods_eaten_in_level g) (head g) (entropy g) v.

(** ** The [random] module *)

(** The number of values of [range(start, stop, step)] for a positive
    [step], as [randrange] computes it; [randrange] raises [ValueError] when
    it is not positive. *)
Definition range_count (start stop step : Z) : Z := (stop - start + step - 1) / step.

(** The value [randrange(start, stop, step)] returns on the raw draw [r]. *)
Definition range_pick (start stop step : Z) (r : nat) : Z :=
  start + step * (Z.of_nat r mod range_count start stop step).

Definition randrange (start stop step : Z) (g : Game) : Z * Game :=
  (range_pick start stop step (entropy g (drawn g)), with_drawn (S (drawn g)) g).

(** [random.random() < 0.25]: decided by the next raw draw, one residue in
    four. *)
Definition random_below_quarter (g : Game) : bool * Game :=
  (Nat.eqb (entropy g (drawn g) mod 4) 0, with_drawn (S (drawn g)) g).

(** ** Placement of consumables *)

(** The overlap test of [place_turtle_at_random] against one turtle. *)
Definition overlaps (x y : Z) (t : Turtle) : bool :=
  (Z.abs (xcor t - x) <? GRID_SIZE) && (Z.abs (ycor t - y) <? GRID_SIZE).

(** The value of [collides] once the head and the segments were checked. *)
Definition placement_collides (x y : Z) (g : Game) : bool :=
  overlaps x y (head g) || existsb (overlaps x y) (snake_segments g).

(** The [while tries < MAX_FOOD_TRIES] loop with [budget] iterations to go;
    once the budget is used up the turtle goes to the origin. *)
Fixpoint place_turtle_tries (budget : nat) (t : Turtle) (g : Game) : Turtle * Game :=
  match budget with
  | O => (showturtle (goto 0 0 t), g)
  | S budget' =>
      let (x, g1) := randrange (- WIDTH / 2 + 40) (WIDTH / 2 - 40) GRID_SIZE g in
      let (y, g2) := randrange (- HEIGHT / 2 + 40) (HEIGHT / 2 - 40) GRID_SIZE g1 in
      if placement_collides x y g2
      then place_turtle_tries budget' t g2
      else (showturtle (goto x y t), g2)
  end.

Definition place_turtle_at_random (t : Turtle) (g : Game) : Turtle * Game :=
  place_turtle_tries MAX_FOOD_TRIES t g.

Definition place_food (g : Game) : Game :=
  let f := match food g with Some f => f | None => new_turtle end in
  let (f', g') := place_turtle_at_random f g in
  with_food (Some f') g'.

Definition place_xenia (g : Game) : Game :=
  let (spawn, g1) := random_below_quarter g in
  if spawn then
    let x := match xenia g1 with Some x => x | None => new_turtle end in
    let (x', g2) := place_turtle_at_random x g1 in
    with_xenia (Some x') g2
  else
    match xenia g1 with
    | Some x => with_xenia (Some (hideturtle x)) g1
    | None => g1
    end.

(** ** Resetting *)

Definition reset_game_state (g : Game) : Game :=
  (* the old segments are hidden, then dropped *)
  let g := with_segments (map hideturtle (snake_segments g)) g in
  let g := with_segments [] g in
  let g := with_direction "stop" g in
  let g := with_score 0 g in
  let g := with_foods_eaten 0 g in
  let g := with_delay INITIAL_SPEED g in
  let g := match xenia g with
           | Some x => with_xenia (Some (hideturtle x)) g
           | None => g
           end in
  with_head (goto 0 0 (head g)) g.

(** ** Key handlers *)

Definition go_up (g : Game) : Game :=
  if negb (String.eqb (direction g) "down") then with_direction "up" g else g.
Definition go_down (g : Game) : Game :=
  if negb (String.eqb (direction g) "up") then with_direction "down" g else g.
Definition go_left (g : Game) : Game :=
  if negb (String.eqb (direction g) "right") then with_direction "left" g else g.
Definition go_right (g : Game) : Game :=
  if negb (String.eqb (direction g) "left") then with_direction "right" g else g.

Definition toggle_pause (g : Game) : Game := with_paused (negb (paused g)) g.

Definition restart_game (g : Game) : Game :=
  let g := place_food (reset_game_state g) in
  match xenia g with
  | Some x => with_xenia (Some (hideturtle x)) g
  | None => g
  end.

(** ** Collision checks *)

Definition collides_with_wall (x y : Z) : bool :=
  if negb WALLS_ENABLED then false
  else
    let half_w := WIDTH / 2 in
    let half_h := HEIGHT / 2 in
    if (x >? half_w - 10) || (x <? - half_w + 10) || (y >? half_h - 10) || (y <? - half_h + 10)
    then true else false.

Definition collides_with_self (g : Game) : bool :=
  existsb (fun seg => distance_lt (head g) seg (GRID_SIZE - 2)) (snake_segments g).

(** ** Movement and growth *)

(** The loop [for index in range(len(snake_segments) - 1, 0, -1)] of
    [move_snake], entered at [index]: the segment at [index] goes where the
    segment at [index - 1] is, then the loop goes on at [index - 1].  The
    list is updated in place, cell by cell, as the source does.  ([index - 1]
    is always a valid index; an invalid one would raise [IndexError].) *)
Fixpoint follow (index : nat) (segs : list Turtle) : list Turtle :=
  match index with
  | O => segs
  | S before =>
      match segs !! before with
      | Some p => follow before (alter (goto (xcor p) (ycor p)) index segs)
      | None => segs
      end
  end.

Definition move_snake (g : Game) : Game :=
  let g :=
    if (0 <? Z.of_nat (length (snake_segments g))) then
      let segs := follow (length (snake_segments g) - 1) (snake_segments g) in
      with_segments (alter (goto (xcor (head g)) (ycor (head g))) 0%nat segs) g
    else g in
  if String.eqb (direction g) "up" then
    with_head (sety (ycor (head g) + GRID_SIZE) (head g)) g
  else if String.eqb (direction g) "down" then
    with_head (sety (ycor (head g) - GRID_SIZE) (head g)) g
  else if String.eqb (direction g) "left" then
    with_head (setx (xcor (head g) - GRID_SIZE) (head g)) g
  else if String.eqb (direction g) "right" then
    with_head (setx (xcor (head g) + GRID_SIZE) (head g)) g
  else g.

(** The cell a fresh segment is parked at until the next move cycle. *)
Definition OFF_SCREEN : Z * Z := (1000, 1000).

Definition spawn_segment (g : Game) : Game :=
  let new_seg := goto 1000 1000 new_turtle in
  with_segments (snake_segments g ++ [new_seg]) g.

(** ** Levels and speed *)

(** Python's [max(a, b)]: [b] only when [b > a]. *)
Definition py_max (a b : float) : float := if PrimFloat.ltb a b then b else a.

Definition set_delay (new_delay : float) (g : Game) : Game := with_delay new_delay g.

Definition increase_speed_on_level_progress (g : Game) : Game :=
  if foods_eaten_in_level g >=? LEVEL_UP_FOOD_COUNT then
    let g := with_foods_eaten 0 g in
    let new_delay := py_max SPEED_MIN (PrimFloat.sub (delay g) SPEED_DECREMENT) in
    set_delay new_delay g
  else g.

(** [apply_xenia_effect] returns the score to add and the updated globals. *)
Definition apply_xenia_effect (g : Game) : Z * Game :=
  let score_add := XENIA_SCORE in
  let g := with_foods_eaten (foods_eaten_in_level g + 1) g in
  let g := increase_speed_on_level_progress g in
  (score_add, g).

(** ** One iteration of the main loop *)

(** The body of both game-over branches (wall and self collision differ in
    the message only): head to the origin, direction stopped, segments
    hidden and dropped, then, after a second, [reset_game_state]. *)
Definition game_over (g : Game) : Game :=
  let g := with_head (goto 0 0 (head g)) g in
  let g := with_direction "stop" g in
  let g := with_segments (map hideturtle (snake_segments g)) g in
  let g := with_segments [] g in
  reset_game_state g.

(** [if collides_with_wall(...): ... elif collides_with_self(): ...] *)
Definition check_collisions (g : Game) : Game :=
  if collides_with_wall (xcor (head g)) (ycor (head g)) then game_over g
  else if collides_with_self g then game_over g
  else g.

Definition update_high_score (g : Game) : Game :=
  if score g >? high_score g then with_high_score (score g) g else g.

(** [food and head.distance(food) < GRID_SIZE] *)
Definition food_hit (g : Game) : bool :=
  match food g with
  | Some f => distance_lt (head g) f GRID_SIZE
  | None => false
  end.

Definition eat_food (g : Game) : Game :=
  let g := with_food (option_map hideturtle (food g)) g in
  let g := with_score (score g + FOOD_SCORE) g in
  let g := with_foods_eaten (foods_eaten_in_level g + 1) g in
  let g := spawn_segment g in
  let g := place_food g in
  let g := place_xenia g in
  let g := increase_speed_on_level_progress g in
  update_high_score g.

(** [if food and ...:], an [if] of its own after the collision branches. *)
Definition check_food (g : Game) : Game :=
  if food_hit g then eat_food g else g.

(** [xenia and xenia.isvisible() and head.distance(xenia) < GRID_SIZE] *)
Definition xenia_hit (g : Game) : bool :=
  match xenia g with
  | Some x => isvisible x && distance_lt (head g) x GRID_SIZE
  | None => false
  end.

Definition eat_xenia (g : Game) : Game :=
  let g := with_xenia (option_map hideturtle (xenia g)) g in
  let old_score := score g in
  let (score_add, g) := apply_xenia_effect g in
  let g := with_score (old_score + score_add) g in
  let g := spawn_segment g in
  let g := spawn_segment g in
  let g := with_xenia (option_map hideturtle (xenia g)) g in
  update_high_score g.

Definition check_xenia (g : Game) : Game :=
  if xenia_hit g then eat_xenia g else g.

(** [not paused and direction != "stop"] *)
Definition moving (g : Game) : bool :=
  negb (paused g) && negb (String.eqb (direction g) "stop").

(** The body of [while True], key events apart. *)
Definition tick (g : Game) : Game :=
  if moving g then check_xenia (check_food (check_collisions (move_snake g)))
  else g.

(** ** Events and runs *)

(** The keys bound with [screen.onkey]. *)
Inductive Key : Type :=
  | Key_Up | Key_Down | Key_Left | Key_Right
  | Key_w | Key_s | Key_a | Key_d
  | Key_p | Key_P | Key_r | Key_R | Key_q | Key_Q.

Definition is_quit (k : Key) : bool :=
  match k with Key_q | Key_Q => true | _ => false end.

Definition is_restart (k : Key) : bool :=
  match k with Key_r | Key_R => true | _ => false end.

(** The handler bound to each key.  [quit_game] closes the window and the
    loop ends: [run] below stops there. *)
Definition on_key (k : Key) (g : Game) : Game :=
  match k with
  | Key_Up | Key_w => go_up g
  | Key_Down | Key_s => go_down g
  | Key_Left | Key_a => go_left g
  | Key_Right | Key_d => go_right g
  | Key_p | Key_P => toggle_pause g
  | Key_r | Key_R => restart_game g
  | Key_q | Key_Q => g
  end.

(** What happens to the process: a key is pressed (its handler runs inside
    [screen.update()], between two loop bodies) or the loop body runs. *)
Inductive Event : Type :=
  | KeyPress (k : Key)
  | Tick.

Definition step (e : Event) (g : Game) : Game :=
  match e with
  | KeyPress k => on_key k g
  | Tick => tick g
  end.

Definition ends_process (e : Event) : bool :=
  match e with KeyPress k => is_quit k | Tick => false end.

Fixpoint run (evs : list Event) (g : Game) : Game :=
  match evs with
  | [] => g
  | e :: evs' => if ends_process e then g else run evs' (step e g)
  end.

(** The globals as the module's top level sets them, head created. *)
Definition globals_at_start (rnd : nat -> nat) : Game :=
  mkGame INITIAL_SPEED 0 0 [] "stop" None None false 0 create_snake_head rnd 0%nat.

(** The globals once the top level reached the main loop: first food
    placed, and a Xenia rolled for. *)
Definition initial (rnd : nat -> nat) : Game :=
  place_xenia (place_food (globals_at_start rnd)).

(** A finite tape of raw draws as an oracle (zero past its end). *)
Definition tape (l : list nat) : nat -> nat := fun i => nth i l 0%nat.

(** ** Specification vocabulary *)

(** The [i]-th candidate cell [place_turtle_at_random] draws from [g]. *)
Definition candidate (g : Game) (i : nat) : Z * Z :=
  (range_pick (- WIDTH / 2 + 40) (WIDTH / 2 - 40) GRID_SIZE (entropy g (2 * i + drawn g)%nat),
   range_pick (- HEIGHT / 2 + 40) (HEIGHT / 2 - 40) GRID_SIZE (entropy g (2 * i + 1 + drawn g)%nat)).

(** The [i]-th candidate overlaps the head or a segment. *)
Definition taken (g : Game) (i : nat) : bool :=
  placement_collides (fst (candidate g i)) (snd (candidate g i)) g.

(** The displacement of the head in one [move_snake]. *)
Definition heading (d : string) : Z * Z :=
  if String.eqb d "up" then (0, GRID_SIZE)
  else if String.eqb d "down" then (0, - GRID_SIZE)
  else if String.eqb d "left" then (- GRID_SIZE, 0)
  else if String.eqb d "right" then (GRID_SIZE, 0)
  else (0, 0).

Definition cardinal (d : string) : Prop :=
  d = "up"%string \/ d = "down"%string \/ d = "left"%string \/ d = "right"%string.

(** The cells of the snake: the head, then the segments in body order. *)
Definition body (g : Game) : list (Z * Z) :=
  position (head g) :: (position <$> snake_segments g).

(** The head after one [move_snake] in direction [d]. *)
Definition advance (d : string) (h : Turtle) : Turtle :=
  mkTurtle (xcor h + fst (heading d)) (ycor h + snd (heading d)) (isvisible h).

(** The segments after the body shift of [move_snake]. *)
Definition shifted (g : Game) : list Turtle :=
  match snake_segments g with
  | [] => []
  | _ :: _ =>
      alter (goto (xcor (head g)) (ycor (head g))) 0%nat
        (follow (length (snake_segments g) - 1) (snake_segments g))
  end.

(** The segments trail the head in a straight line against the direction
    of travel, one grid unit apart. *)
Definition straight_line (g : Game) : Prop :=
  forall (i : nat) (c : Z * Z),
    (position <$> snake_segments g) !! i = Some c ->
    c = (xcor (head g) - (Z.of_nat i + 1) * fst (heading (direction g)),
         ycor (head g) - (Z.of_nat i + 1) * snd (heading (direction g))).

(** The values the global [score] is given while [e] is handled from [g],
    in the order of the assignments: by a key handler, or, in a loop body
    that moves the snake, after the collision branches, after the food
    branch and after the Xenia branch. *)
Definition scores_during (e : Event) (g : Game) : list Z :=
  match e with
  | KeyPress k => [score (on_key k g)]
  | Tick =>
      if moving g then
        let g1 := check_collisions (move_snake g) in
        let g2 := check_food g1 in
        [score g1; score g2; score (check_xenia g2)]
      else []
  end.

(** Every value [score] takes during the run of [evs] from [g]. *)
Fixpoint score_history (evs : list Event) (g : Game) : list Z :=
  match evs with
  | [] => []
  | e :: evs' =>
      if ends_process e then []
      else scores_during e g ++ score_history evs' (step e g)
  end.

(** The score is not negative and the high score is not below it. *)
Definition score_ok (g : Game) : Prop := 0 <= score g <= high_score g.

(** [f] keeps [score_ok], never lowers the high score, and leaves it either
    as it was or equal to the score it produced. *)
Definition tracks_high_score (f : Game -> Game) : Prop :=
  forall h, score_ok h ->
    score_ok (f h) /\ high_score h <= high_score (f h) /\
    (high_score (f h) = high_score h \/ high_score (f h) = score (f h)).

(** The delays a game goes through: [INITIAL_SPEED], then what each level-up
    makes of the one before, [n] times. *)
Fixpoint delay_ladder (n : nat) (d : float) : list float :=
  d :: match n with
       | O => []
       | S n' => delay_ladder n' (py_max SPEED_MIN (PrimFloat.sub d SPEED_DECREMENT))
       end.

(** Eighteen level-ups reach [SPEED_MIN], where the delay stays. *)
Definition delay_levels : list float := delay_ladder 18 INITIAL_SPEED.

Definition delay_ok (g : Game) : Prop := In (delay g) delay_levels.

(** The loop body run from [g] moves the snake into a wall or into itself. *)
Definition is_fatal (g : Game) : bool :=
  moving g &&
  (collides_with_wall (xcor (head (move_snake g))) (ycor (head (move_snake g)))
   || collides_with_self (move_snake g)).

(** Handling [e] from [g] stays within the current game: [e] is neither a
    restart request nor a loop body that ends the game. *)
Definition within_game (e : Event) (g : Game) : bool :=
  match e with
  | KeyPress k => negb (is_restart k)
  | Tick => negb (is_fatal g)
  end.

(** A cell the head can be on without a wall collision. *)
Definition inside_walls (c : Z * Z) : Prop :=
  - WIDTH / 2 + 10 <= fst c <= WIDTH / 2 - 10 /\
  - HEIGHT / 2 + 10 <= snd c <= HEIGHT / 2 - 10.

(** The shape of the body between two loop bodies: the segments are some
    [live] cells followed by [parked] freshly spawned ones, all still at
    [OFF_SCREEN]; the head and the live cells are pairwise distinct and
    inside the walls. *)
Definition body_ok (g : Game) : Prop :=
  exists (live : list (Z * Z)) (parked : nat),
    position <$> snake_segments g = live ++ replicate parked OFF_SCREEN /\
    NoDup (position (head g) :: live) /\
    Forall inside_walls (position (head g) :: live).

(** The head turtle is shown. *)
Definition head_shown (g : Game) : Prop := isvisible (head g) = true.

(** ** Concrete runs *)

(** Xenia spawned one cell to the right of the head; the snake goes right
    and eats it in the first loop body. *)
Definition xenia_run : Game :=
  run [KeyPress Key_Right; Tick] (initial (tape [0; 0; 0; 14; 13]%nat)).

(** Food one cell to the right of the head, no Xenia; the snake is about
    to go right. *)
Definition before_first_food : Game :=
  run [KeyPress Key_Right] (initial (tape [14; 13; 1]%nat)).


(** The snake ate the first food at (20, 0), the next food was placed on
    the origin, and the snake went on to the right up to the wall. *)
Definition facing_the_wall_food_at_origin : Game :=
  run (KeyPress Key_Right :: replicate 14 Tick)
      (initial (tape [14; 13; 1; 13; 13; 1]%nat)).

(** ** Vocabulary of the further properties *)

(** The direction a handler refuses to turn into from [d]. *)
Definition opposite (d : string) : string :=
  if String.eqb d "up" then "down"
  else if String.eqb d "down" then "up"
  else if String.eqb d "left" then "right"
  else if String.eqb d "right" then "left"
  else d.

(** The values [direction] is ever assigned. *)
Definition known_direction (d : string) : Prop :=
  d = "stop"%string \/ cardinal d.

(** What the loop body run from [g] adds to the snake: one segment for the
    food, two for a Xenia. *)
Definition growth (g : Game) : nat :=
  let g1 := check_collisions (move_snake g) in
  ((if food_hit g1 then 1 else 0) + (if xenia_hit (check_food g1) then 2 else 0))%nat.

(** The level counter is below the threshold. *)
Definition level_ok (g : Game) : Prop :=
  0 <= foods_eaten_in_level g < LEVEL_UP_FOOD_COUNT.

(** Score and length go together: every segment stands for ten to twenty
    points. *)
Definition score_matches_length (g : Game) : Prop :=
  score g mod FOOD_SCORE = 0 /\
  FOOD_SCORE * Z.of_nat (length (snake_segments g)) <= score g
    <= 2 * FOOD_SCORE * Z.of_nat (length (snake_segments g)).

(** A cell [place_turtle_at_random] can put a turtle on: on the grid and
    within the range the candidates are drawn from (the origin, where the
    fallback goes, is one of them). *)
Definition placement_cell (c : Z * Z) : Prop :=
  (fst c mod GRID_SIZE = 0 /\ snd c mod GRID_SIZE = 0) /\
  - WIDTH / 2 + 40 <= fst c <= WIDTH / 2 - 40 - GRID_SIZE /\
  - HEIGHT / 2 + 40 <= snd c <= HEIGHT / 2 - 40 - GRID_SIZE.

(** A cell of the grid: both coordinates are multiples of [GRID_SIZE]. *)
Definition on_grid (c : Z * Z) : Prop :=
  (GRID_SIZE | fst c) /\ (GRID_SIZE | snd c).

(** Where the turtles are between and inside loop bodies: head and segments
    on the grid, the food there and shown on a placement cell, a Xenia (if
    one was ever created) on a placement cell. *)
Definition board_ok (g : Game) : Prop :=
  on_grid (position (head g)) /\
  Forall on_grid (position <$> snake_segments g) /\
  (exists f, food g = Some f /\ isvisible f = true /\ placement_cell (position f)) /\
  (forall x, xenia g = Some x -> placement_cell (position x)).

(** The speed [draw_scoreboard] prints, [1/delay]: Python raises
    [ZeroDivisionError] when [delay] is zero, which is [None] here. *)
Definition scoreboard_speed (g : Game) : option float :=
  if PrimFloat.eqb (delay g) 0%float then None
  else Some (PrimFloat.div 1%float (delay g)).

(** One level-up: the counter is at the threshold when
    [increase_speed_on_level_progress] is called. *)
Definition level_up (g : Game) : Game :=
  increase_speed_on_level_progress (with_foods_eaten LEVEL_UP_FOOD_COUNT g).

(** ** Basic facts *)

Lemma with_drawn_same g : with_drawn (drawn g) g = g.
Proof. by destruct g. Qed.

Lemma with_drawn_twice a b g : with_drawn a (with_drawn b g) = with_drawn a g.
Proof. reflexivity. Qed.

Lemma range_count_board :
  range_count (- WIDTH / 2 + 40) (WIDTH / 2 - 40) GRID_SIZE = 26 /\
  range_count (- HEIGHT / 2 + 40) (HEIGHT / 2 - 40) GRID_SIZE = 26.
Proof. split; reflexivity. Qed.

Lemma range_pick_x r :
  let x := range_pick (- WIDTH / 2 + 40) (WIDTH / 2 - 40) GRID_SIZE r in
  - WIDTH / 2 + 40 <= x < WIDTH / 2 - 40 /\ (x - (- WIDTH / 2 + 40)) mod GRID_SIZE = 0.
Proof.
  cbv zeta. unfold range_pick. rewrite (proj1 range_count_board).
  change (- WIDTH / 2 + 40) with (-260). change (WIDTH / 2 - 40) with 260.
  change GRID_SIZE with 20.
  pose proof (Z.mod_pos_bound (Z.of_nat r) 26 ltac:(lia)) as Hm.
  split; [lia|].
  replace (-260 + 20 * (Z.of_nat r mod 26) - -260) with ((Z.of_nat r mod 26) * 20) by lia.
  apply Z.mod_mul. lia.
Qed.

Lemma range_pick_y r :
  let y := range_pick (- HEIGHT / 2 + 40) (HEIGHT / 2 - 40) GRID_SIZE r in
  - HEIGHT / 2 + 40 <= y < HEIGHT / 2 - 40 /\ (y - (- HEIGHT / 2 + 40)) mod GRID_SIZE = 0.
Proof. exact (range_pick_x r). Qed.

Lemma inside_no_wall x y :
  - WIDTH / 2 + 10 <= x <= WIDTH / 2 - 10 ->
  - HEIGHT / 2 + 10 <= y <= HEIGHT / 2 - 10 ->
  collides_with_wall x y = false.
Proof.
  unfold collides_with_wall. simpl negb. cbv iota.
  change (- WIDTH / 2 + 10) with (-290). change (WIDTH / 2 - 10) with 290.
  change (- HEIGHT / 2 + 10) with (-290). change (HEIGHT / 2 - 10) with 290.
  change (- (WIDTH / 2) + 10) with (-290). change (- (HEIGHT / 2) + 10) with (-290).
  intros Hx Hy.
  replace (x >? 290) with false by (symmetry; rewrite Z.gtb_ltb; apply Z.ltb_ge; lia).
  replace (x <? -290) with false by (symmetry; apply Z.ltb_ge; lia).
  replace (y >? 290) with false by (symmetry; rewrite Z.gtb_ltb; apply Z.ltb_ge; lia).
  replace (y <? -290) with false by (symmetry; apply Z.ltb_ge; lia).
  reflexivity.
Qed.

Lemma no_wall_inside x y :
  collides_with_wall x y = false ->
  - 290 <= x <= 290 /\ - 290 <= y <= 290.
Proof.
  unfold collides_with_wall. simpl negb. cbv iota.
  change (WIDTH / 2 - 10) with 290. change (HEIGHT / 2 - 10) with 290.
  change (- (WIDTH / 2) + 10) with (-290). change (- (HEIGHT / 2) + 10) with (-290).
  cbv zeta.
  destruct (x >? 290) eqn:E1; [discriminate|].
  destruct (x <? -290) eqn:E2; [discriminate|].
  destruct (y >? 290) eqn:E3; [discriminate|].
  destruct (y <? -290) eqn:E4; [discriminate|].
  intros _. rewrite Z.gtb_ltb in E1, E3.
  apply Z.ltb_ge in E1, E2, E3, E4. lia.
Qed.

(** *** The retry loop *)

Lemma candidate_shift g k i :
  candidate (with_drawn (2 * k + drawn g)%nat g) i = candidate g (k + i).
Proof.
  unfold candidate. cbn [entropy drawn with_drawn].
  f_equal; f_equal; f_equal; lia.
Qed.

Lemma taken_shift g k i :
  taken (with_drawn (2 * k + drawn g)%nat g) i = taken g (k + i).
Proof. unfold taken. rewrite candidate_shift. reflexivity. Qed.

Lemma place_turtle_tries_S n t g :
  place_turtle_tries (S n) t g =
  if taken g 0
  then place_turtle_tries n t (with_drawn (2 * 1 + drawn g)%nat g)
  else (showturtle (goto (fst (candidate g 0)) (snd (candidate g 0)) t),
        with_drawn (2 * 1 + drawn g)%nat g).
Proof. reflexivity. Qed.

(** What the loop returns from [g] with a budget of [n] tries: the first
    free candidate, or the origin once [n] candidates were rejected. *)
Lemma place_turtle_tries_spec n t g :
  (exists i, (i < n)%nat /\ (forall j, (j < i)%nat -> taken g j = true) /\
     taken g i = false /\
     place_turtle_tries n t g =
       (showturtle (goto (fst (candidate g i)) (snd (candidate g i)) t),
        with_drawn (2 * S i + drawn g)%nat g))
  \/ ((forall j, (j < n)%nat -> taken g j = true) /\
      place_turtle_tries n t g =
        (showturtle (goto 0 0 t), with_drawn (2 * n + drawn g)%nat g)).
Proof.
  revert g. induction n as [|n IH]; intros g.
  - right. split; [intros j Hj; lia|].
    cbn [place_turtle_tries]. change (2 * 0 + drawn g)%nat with (drawn g).
    by rewrite with_drawn_same.
  - rewrite place_turtle_tries_S. destruct (taken g 0) eqn:Ht0.
    + destruct (IH (with_drawn (2 * 1 + drawn g)%nat g))
        as [(i & Hi & Hbefore & Hfree & Heq)|(Hall & Heq)].
      * left. exists (S i). split; [lia|]. split; [|split].
        -- intros [|j] Hj; [exact Ht0|]. rewrite <- (Hbefore j) by lia.
           rewrite taken_shift. reflexivity.
        -- rewrite taken_shift in Hfree. exact Hfree.
        -- rewrite Heq, candidate_shift. cbn [drawn with_drawn].
           rewrite with_drawn_twice. do 2 f_equal. lia.
      * right. split.
        -- intros [|j] Hj; [exact Ht0|]. rewrite <- (Hall j) by lia.
           rewrite taken_shift. reflexivity.
        -- rewrite Heq. cbn [drawn with_drawn]. rewrite with_drawn_twice.
           do 2 f_equal. lia.
    + left. exists 0%nat. split; [lia|]. split; [intros j Hj; lia|].
      split; [exact Ht0|]. reflexivity.
Qed.

Lemma place_turtle_at_random_frame t g :
  exists t' k, place_turtle_at_random t g = (t', with_drawn k g).
Proof.
  unfold place_turtle_at_random.
  destruct (place_turtle_tries_spec MAX_FOOD_TRIES t g)
    as [(i & _ & _ & _ & ->)|(_ & ->)]; eauto.
Qed.

Lemma place_food_frame g :
  exists f k, place_food g = with_food (Some f) (with_drawn k g).
Proof.
  unfold place_food.
  destruct (place_turtle_at_random_frame
              (match food g with Some f => f | None => new_turtle end) g)
    as (f' & k & ->). eauto.
Qed.

Lemma place_xenia_frame g :
  exists x k, place_xenia g = with_xenia x (with_drawn k g).
Proof.
  unfold place_xenia, random_below_quarter.
  destruct (Nat.eqb _ _).
  - match goal with |- context [place_turtle_at_random ?t ?h] =>
      destruct (place_turtle_at_random_frame t h) as (x' & k & ->) end.
    exists (Some x'), k. reflexivity.
  - cbn [xenia with_drawn]. destruct (xenia g) as [x|] eqn:Hx.
    + eexists _, _. reflexivity.
    + exists None, (S (drawn g)). destruct g; cbn in *. by subst.
Qed.

(** *** The body shift *)

Lemma fmap_position_goto x y i (l : list Turtle) :
  position <$> alter (goto x y) i l = <[i := (x, y)]> (position <$> l).
Proof.
  revert i. induction l as [|a l IH]; intros [|i]; simpl; try reflexivity.
  f_equal. apply IH.
Qed.

Lemma follow_length k segs : length (follow k segs) = length segs.
Proof.
  revert segs. induction k as [|k IH]; intros segs; simpl; [reflexivity|].
  destruct (segs !! k); [|reflexivity].
  by rewrite IH, length_alter.
Qed.

(** After the loop entered at [k], the cells [1..k] hold the positions
    their predecessors had; every other cell is where it was. *)
Lemma follow_lookup_position k segs i :
  (k < length segs)%nat ->
  (position <$> follow k segs) !! i =
  if decide (1 <= i <= k)%nat then (position <$> segs) !! (i - 1)%nat
  else (position <$> segs) !! i.
Proof.
  revert segs. induction k as [|k IH]; intros segs Hk.
  - simpl. case_decide; [lia|reflexivity].
  - simpl. destruct (segs !! k) as [p|] eqn:Hp.
    2:{ apply lookup_ge_None in Hp. lia. }
    rewrite IH by (rewrite length_alter; lia).
    rewrite fmap_position_goto.
    assert (Hpk : (position <$> segs) !! k = Some (xcor p, ycor p)).
    { rewrite list_lookup_fmap, Hp. reflexivity. }
    destruct (decide (1 <= i <= k)%nat) as [Hi|Hi].
    + rewrite decide_True by lia. apply list_lookup_insert_ne. lia.
    + destruct (decide (i = S k)) as [->|Hne].
      * rewrite decide_True by lia.
        rewrite list_lookup_insert_eq by (rewrite length_fmap; lia).
        replace (S k - 1)%nat with k by lia. by rewrite Hpk.
      * rewrite decide_False by lia. apply list_lookup_insert_ne. lia.
Qed.

Lemma move_snake_eq g :
  move_snake g = with_head (advance (direction g) (head g)) (with_segments (shifted g) g).
Proof.
  unfold move_snake.
  match goal with |- context [if (0 <? ?n) then ?a else ?b] =>
    assert (Hg1 : (if (0 <? n) then a else b) = with_segments (shifted g) g) end.
  { unfold shifted. destruct (snake_segments g) as [|s segs] eqn:Hs.
    - change (0 <? Z.of_nat (length (@nil Turtle))) with false.
      destruct g; cbn in *; by subst.
    - replace (0 <? Z.of_nat (length (s :: segs))) with true
        by (symmetry; apply Z.ltb_lt; cbn [length]; lia).
      reflexivity. }
  rewrite Hg1. cbn [direction head with_segments].
  unfold advance, heading.
  destruct g as [dl sc hs segs d fo xe pa fe [hx hy hv] en dr].
  cbn [direction head xcor ycor isvisible].
  repeat (destruct (String.eqb d _);
          [unfold with_head, with_segments, sety, setx; cbn; do 2 f_equal; lia|]).
  unfold with_head, with_segments; cbn. do 2 f_equal; lia.
Qed.

Lemma shifted_positions g :
  snake_segments g <> [] ->
  position <$> shifted g =
  position (head g) :: take (length (snake_segments g) - 1) (position <$> snake_segments g).
Proof.
  intros Hne. unfold shifted.
  destruct (snake_segments g) as [|s segs] eqn:Hs; [done|]. clear Hne.
  rewrite <- Hs. rewrite fmap_position_goto.
  assert (Hlen : length (snake_segments g) = S (length segs)) by (by rewrite Hs).
  apply list_eq. intros i.
  destruct i as [|i].
  - rewrite list_lookup_insert_eq; [reflexivity|].
    rewrite length_fmap, follow_length. lia.
  - rewrite list_lookup_insert_ne by lia.
    rewrite follow_lookup_position by lia.
    rewrite lookup_cons_ne_0 by lia. cbn [pred].
    replace (S i - 1)%nat with i by lia.
    case_decide as Hi.
    + rewrite lookup_take_lt by lia. reflexivity.
    + rewrite lookup_take_ge by lia.
      apply lookup_ge_None. rewrite length_fmap. lia.
Qed.

Lemma shifted_length g : length (shifted g) = length (snake_segments g).
Proof.
  unfold shifted. destruct (snake_segments g) as [|s segs] eqn:Hs; [done|].
  rewrite <- Hs. by rewrite length_alter, follow_length.
Qed.

Lemma heading_cardinal d :
  cardinal d ->
  (heading d = (0, GRID_SIZE) \/ heading d = (0, - GRID_SIZE) \/
   heading d = (- GRID_SIZE, 0) \/ heading d = (GRID_SIZE, 0)).
Proof. intros [-> | [-> | [-> | ->]]]; cbv; tauto. Qed.

Lemma existsb_false {A} (f : A -> bool) (l : list A) :
  (forall a, a ∈ l -> f a = false) -> existsb f l = false.
Proof.
  induction l as [|a l IH]; intros H; simpl; [reflexivity|].
  rewrite (H a) by constructor. apply IH. intros b Hb. apply H. by constructor.
Qed.

Lemma existsb_false_inv {A} (f : A -> bool) (l : list A) a :
  existsb f l = false -> a ∈ l -> f a = false.
Proof.
  intros H Ha. destruct (f a) eqn:E; [|reflexivity].
  rewrite <- H. symmetry. apply existsb_exists. exists a.
  split; [by apply list_elem_of_In|exact E].
Qed.

Lemma position_placed (c : Z * Z) t :
  position (showturtle (goto (fst c) (snd c) t)) = c.
Proof. by destruct c. Qed.

(** ** Placement (C7, C10) *)

(** C7. [place_turtle_at_random] always produces a placement: the ranges it
    draws from are not empty (so [randrange] cannot raise), every candidate
    is a grid-aligned cell within the bounds, a candidate is rejected
    exactly when it overlaps the head or a segment, the first candidate
    that is not rejected among the first [MAX_FOOD_TRIES] is where the
    turtle goes, and when all of them were rejected the turtle goes to the
    origin whether or not the origin is occupied. *)
Theorem place_turtle_at_random_always_places (t : Turtle) (g : Game) :
  (0 < range_count (- WIDTH / 2 + 40) (WIDTH / 2 - 40) GRID_SIZE /\
   0 < range_count (- HEIGHT / 2 + 40) (HEIGHT / 2 - 40) GRID_SIZE) /\
  (forall i,
     (- WIDTH / 2 + 40 <= fst (candidate g i) < WIDTH / 2 - 40 /\
      (fst (candidate g i) - (- WIDTH / 2 + 40)) mod GRID_SIZE = 0) /\
     (- HEIGHT / 2 + 40 <= snd (candidate g i) < HEIGHT / 2 - 40 /\
      (snd (candidate g i) - (- HEIGHT / 2 + 40)) mod GRID_SIZE = 0)) /\
  (forall i,
     taken g i = true <->
     exists c, c ∈ head g :: snake_segments g /\
       Z.abs (xcor c - fst (candidate g i)) < GRID_SIZE /\
       Z.abs (ycor c - snd (candidate g i)) < GRID_SIZE) /\
  isvisible (fst (place_turtle_at_random t g)) = true /\
  ((exists i, (i < MAX_FOOD_TRIES)%nat /\
      (forall j, (j < i)%nat -> taken g j = true) /\
      taken g i = false /\
      position (fst (place_turtle_at_random t g)) = candidate g i /\
      snd (place_turtle_at_random t g) = with_drawn (2 * S i + drawn g)%nat g)
   \/ ((forall j, (j < MAX_FOOD_TRIES)%nat -> taken g j = true) /\
       position (fst (place_turtle_at_random t g)) = (0, 0) /\
       snd (place_turtle_at_random t g) =
         with_drawn (2 * MAX_FOOD_TRIES + drawn g)%nat g)).
Proof.
  split; [split; reflexivity|].
  split; [intros i; split; [apply range_pick_x|apply range_pick_y]|].
  split.
  { intros i. unfold taken, placement_collides.
    set (x := fst (candidate g i)). set (y := snd (candidate g i)).
    rewrite orb_true_iff, existsb_exists. split.
    - intros [Hh|(c & Hc & Ho)].
      + exists (head g). split; [constructor|].
        unfold overlaps in Hh. apply andb_true_iff in Hh as [H1 H2].
        apply Z.ltb_lt in H1, H2. done.
      + exists c. split; [constructor; by apply list_elem_of_In|].
        unfold overlaps in Ho. apply andb_true_iff in Ho as [H1 H2].
        apply Z.ltb_lt in H1, H2. done.
    - intros (c & Hc & H1 & H2).
      assert (Ho : overlaps x y c = true).
      { unfold overlaps. apply andb_true_iff. split; by apply Z.ltb_lt. }
      apply elem_of_cons in Hc as [->|Hc]; [by left|].
      right. exists c. split; [by apply list_elem_of_In|exact Ho]. }
  unfold place_turtle_at_random.
  destruct (place_turtle_tries_spec MAX_FOOD_TRIES t g)
    as [(i & Hi & Hbefore & Hfree & ->)|(Hall & ->)].
  - split; [reflexivity|]. left. exists i.
    repeat split; try done; cbn [fst]; apply position_placed.
  - split; [reflexivity|]. right. repeat split; done.
Qed.

(** The fallback can land on the snake: with the head at the origin and
    every draw proposing the origin, the turtle is put under the head. *)
Example fallback_under_the_head :
  let g := globals_at_start (fun _ => 13%nat) in
  position (head g) = (0, 0) /\
  position (fst (place_turtle_at_random new_turtle g)) = (0, 0) /\
  drawn (snd (place_turtle_at_random new_turtle g)) = (2 * MAX_FOOD_TRIES)%nat.
Proof. vm_compute. repeat split. Qed.

(** C10. When [place_turtle_at_random] accepts a candidate (the path that
    is not the fallback), the turtle's position lies in
    [[-WIDTH/2 + 40, WIDTH/2 - 40)] by [[-HEIGHT/2 + 40, HEIGHT/2 - 40)],
    at least 30 units inside the wall boundary, and is no wall collision. *)
Theorem random_placement_inside_walls (t : Turtle) (g : Game) (i : nat) :
  (i < MAX_FOOD_TRIES)%nat ->
  (forall j, (j < i)%nat -> taken g j = true) ->
  taken g i = false ->
  let p := fst (place_turtle_at_random t g) in
  position p = candidate g i /\
  - WIDTH / 2 + 40 <= xcor p < WIDTH / 2 - 40 /\
  - HEIGHT / 2 + 40 <= ycor p < HEIGHT / 2 - 40 /\
  collides_with_wall (xcor p) (ycor p) = false /\
  - WIDTH / 2 + 10 + 30 <= xcor p <= WIDTH / 2 - 10 - 30 /\
  - HEIGHT / 2 + 10 + 30 <= ycor p <= HEIGHT / 2 - 10 - 30.
Proof.
  intros Hi Hbefore Hfree p.
  assert (Hp : position p = candidate g i).
  { unfold p, place_turtle_at_random.
    destruct (place_turtle_tries_spec MAX_FOOD_TRIES t g)
      as [(i' & Hi' & Hbefore' & Hfree' & ->)|(Hall & _)].
    - assert (i' = i) as ->.
      { destruct (Nat.lt_trichotomy i' i) as [Hlt|[Heq|Hgt]]; [|exact Heq|].
        - rewrite (Hbefore i' Hlt) in Hfree'. discriminate.
        - rewrite (Hbefore' i Hgt) in Hfree. discriminate. }
      cbn [fst]. apply position_placed.
    - rewrite (Hall i Hi) in Hfree. discriminate. }
  split; [exact Hp|].
  assert (Hx : xcor p = fst (candidate g i)) by (rewrite <- Hp; reflexivity).
  assert (Hy : ycor p = snd (candidate g i)) by (rewrite <- Hp; reflexivity).
  pose proof (range_pick_x (entropy g (2 * i + drawn g)%nat)) as [Bx _].
  pose proof (range_pick_y (entropy g (2 * i + 1 + drawn g)%nat)) as [By _].
  cbv zeta in Bx, By.
  change (range_pick _ _ _ (entropy g (2 * i + drawn g)%nat))
    with (fst (candidate g i)) in Bx.
  change (range_pick _ _ _ (entropy g (2 * i + 1 + drawn g)%nat))
    with (snd (candidate g i)) in By.
  rewrite <- Hx in Bx. rewrite <- Hy in By.
  assert (Gx : (fst (candidate g i) - (- WIDTH / 2 + 40)) mod GRID_SIZE = 0)
    by apply range_pick_x.
  assert (Gy : (snd (candidate g i) - (- HEIGHT / 2 + 40)) mod GRID_SIZE = 0)
    by apply range_pick_y.
  rewrite <- Hx in Gx. rewrite <- Hy in Gy.
  change (- WIDTH / 2) with (-300) in *. change (WIDTH / 2) with 300 in *.
  change (- HEIGHT / 2) with (-300) in *. change (HEIGHT / 2) with 300 in *.
  change GRID_SIZE with 20 in *.
  assert (Ax : xcor p <= 240).
  { apply Z.mod_divide in Gx; [|lia]. destruct Gx as [q Hq]. lia. }
  assert (Ay : ycor p <= 240).
  { apply Z.mod_divide in Gy; [|lia]. destruct Gy as [q Hq]. lia. }
  split; [lia|]. split; [lia|].
  split; [|lia].
  apply inside_no_wall.
  - change (- WIDTH / 2) with (-300). change (WIDTH / 2) with 300. lia.
  - change (- HEIGHT / 2) with (-300). change (HEIGHT / 2) with 300. lia.
Qed.

Lemma random_placement_inside_walls_witness :
  let g := globals_at_start (tape [14; 13]%nat) in
  let p := fst (place_turtle_at_random new_turtle g) in
  position p = (20, 0) /\ collides_with_wall (xcor p) (ycor p) = false.
Proof.
  intros g p.
  destruct (random_placement_inside_walls new_turtle g 0) as (H1 & _ & _ & H2 & _).
  - unfold MAX_FOOD_TRIES. lia.
  - intros j Hj. lia.
  - reflexivity.
  - split; [exact H1|exact H2].
Defined.

(** ** Direction requests (C8) *)

Lemma move_snake_head g :
  position (head (move_snake g)) =
  (xcor (head g) + fst (heading (direction g)),
   ycor (head g) + snd (heading (direction g))).
Proof. rewrite move_snake_eq. reflexivity. Qed.

Lemma handler_guard (refused wanted : string) (g : Game) :
  let h := if negb (String.eqb (direction g) refused)
           then with_direction wanted g else g in
  (direction g = refused -> h = g) /\
  (direction g <> refused -> h = with_direction wanted g).
Proof.
  cbv zeta. destruct (String.eqb_spec (direction g) refused) as [E|E];
    cbn [negb]; split; intros H; congruence.
Qed.

(** C8. Each of the four handlers compares the current direction with one
    string only, the exact opposite of what it requests: on that string it
    leaves every global as it is, on any other string (a cardinal
    direction, ["stop"], anything) it sets the direction to the requested
    one and changes nothing else.  So (1) from ["stop"] every cardinal
    request is accepted, and (2) while moving right, the direct request for
    left is refused, yet the requests up and then left, delivered between
    two ticks, leave the direction at left: the next [move_snake] displaces
    the head by the opposite of what the previous one did. *)
Theorem reversal_guard_compares_exact_opposite_only (g : Game) :
  ((direction g = "down"%string -> go_up g = g) /\
   (direction g <> "down"%string -> go_up g = with_direction "up" g)) /\
  ((direction g = "up"%string -> go_down g = g) /\
   (direction g <> "up"%string -> go_down g = with_direction "down" g)) /\
  ((direction g = "right"%string -> go_left g = g) /\
   (direction g <> "right"%string -> go_left g = with_direction "left" g)) /\
  ((direction g = "left"%string -> go_right g = g) /\
   (direction g <> "left"%string -> go_right g = with_direction "right" g)) /\
  (direction g = "stop"%string ->
     direction (go_up g) = "up"%string /\
     direction (go_down g) = "down"%string /\
     direction (go_left g) = "left"%string /\
     direction (go_right g) = "right"%string) /\
  (direction g = "right"%string ->
     direction (go_left g) = "right"%string /\
     let g' := run [KeyPress Key_Up; KeyPress Key_Left] g in
     direction g' = "left"%string /\
     position (head g') = position (head g) /\
     position (head (move_snake g)) = (xcor (head g) + GRID_SIZE, ycor (head g)) /\
     position (head (move_snake g')) = (xcor (head g) - GRID_SIZE, ycor (head g))).
Proof.
  split; [exact (handler_guard "down" "up" g)|].
  split; [exact (handler_guard "up" "down" g)|].
  split; [exact (handler_guard "right" "left" g)|].
  split; [exact (handler_guard "left" "right" g)|].
  split.
  - intros Hd. unfold go_up, go_down, go_left, go_right. rewrite Hd.
    repeat split.
  - intros Hd. unfold go_left at 1. rewrite Hd.
    split; [cbn [String.eqb Ascii.eqb Bool.eqb negb]; exact Hd|].
    cbn [run ends_process is_quit step on_key].
    unfold go_up. rewrite Hd. cbn [String.eqb Ascii.eqb Bool.eqb negb].
    unfold go_left. cbn [direction with_direction String.eqb Ascii.eqb Bool.eqb negb].
    split; [reflexivity|]. split; [reflexivity|].
    rewrite !move_snake_head. cbn [direction with_direction head].
    rewrite Hd. cbn. split; f_equal; lia.
Qed.

Lemma reversal_guard_compares_exact_opposite_only_witness :
  let g0 := initial (tape []) in
  let g1 := run [KeyPress Key_Right; Tick] g0 in
  (direction (go_up g0) = "up"%string /\
   direction (go_down g0) = "down"%string /\
   direction (go_left g0) = "left"%string /\
   direction (go_right g0) = "right"%string) /\
  (position (head g1) = (20, 0) /\
   direction (run [KeyPress Key_Up; KeyPress Key_Left] g1) = "left"%string /\
   position (head (run [KeyPress Key_Up; KeyPress Key_Left; Tick] g1)) = (0, 0)) /\
  (go_left g1 = g1 /\
   go_up g1 = with_direction "up" g1 /\
   go_down g1 = with_direction "down" g1 /\
   go_right g1 = with_direction "right" g1).
Proof.
  intros g0 g1.
  destruct (reversal_guard_compares_exact_opposite_only g0)
    as (_ & _ & _ & _ & Hstop & _).
  destruct (reversal_guard_compares_exact_opposite_only g1)
    as ((_ & Hup) & (_ & Hdown) & (Hleft & _) & (_ & Hright) & _ & Hturn).
  assert (Hd1 : direction g1 = "right"%string) by (vm_compute; reflexivity).
  split; [apply Hstop; vm_compute; reflexivity|].
  split.
  - split; [vm_compute; reflexivity|].
    destruct (Hturn Hd1) as (_ & Hdir & _).
    split; [exact Hdir|]. vm_compute. reflexivity.
  - split; [exact (Hleft Hd1)|].
    split; [apply Hup; rewrite Hd1; discriminate|].
    split; [apply Hdown; rewrite Hd1; discriminate|].
    apply Hright. rewrite Hd1. discriminate.
Defined.

(** ** Self collision (C9) *)

Lemma shifted_head_position g s rest :
  snake_segments g = s :: rest ->
  exists s' rest', shifted g = s' :: rest' /\ position s' = position (head g).
Proof.
  intros Hs.
  assert (Hne : snake_segments g <> []) by (rewrite Hs; discriminate).
  pose proof (shifted_positions g Hne) as Hpos.
  destruct (shifted g) as [|s' rest'] eqn:E; [discriminate|].
  exists s', rest'. split; [reflexivity|].
  rewrite fmap_cons in Hpos. inversion Hpos as [[Hx Hy Hrest]].
  unfold position. by rewrite Hx, Hy.
Qed.

(** C9. After a [move_snake] in a cardinal direction the first segment sits
    where the head was, exactly [GRID_SIZE] away from the head, and the
    strict threshold [GRID_SIZE - 2] does not count it as a collision.  For
    a snake trailing its head in a straight line, [collides_with_self]
    is false after the move. *)
Theorem trailing_segment_is_no_self_collision (g : Game) (s : Turtle) (rest : list Turtle) :
  cardinal (direction g) ->
  snake_segments g = s :: rest ->
  exists s' rest',
    snake_segments (move_snake g) = s' :: rest' /\
    position s' = position (head g) /\
    distance_squared (head (move_snake g)) s' = GRID_SIZE * GRID_SIZE /\
    distance_lt (head (move_snake g)) s' (GRID_SIZE - 2) = false /\
    (straight_line g -> collides_with_self (move_snake g) = false).
Proof.
  intros Hd Hs.
  destruct (shifted_head_position g s rest Hs) as (s' & rest' & Hsh & Hpos).
  exists s', rest'.
  assert (Hsegs : snake_segments (move_snake g) = shifted g)
    by (rewrite move_snake_eq; reflexivity).
  pose proof (move_snake_head g) as Hh.
  pose proof (heading_cardinal _ Hd) as Hcard.
  assert (Hdist : distance_squared (head (move_snake g)) s' = GRID_SIZE * GRID_SIZE).
  { unfold distance_squared. unfold position in Hh, Hpos.
    injection Hh as Hx Hy. injection Hpos as Hx' Hy'.
    rewrite Hx, Hy, Hx', Hy'. change GRID_SIZE with 20 in *.
    destruct Hcard as [E|[E|[E|E]]]; rewrite E; cbn [fst snd]; lia. }
  split; [by rewrite Hsegs|]. split; [exact Hpos|]. split; [exact Hdist|].
  split.
  { unfold distance_lt. rewrite Hdist. reflexivity. }
  intros Hline. unfold collides_with_self. apply existsb_false.
  intros c Hc. rewrite Hsegs in Hc.
  apply list_elem_of_lookup in Hc as [i Hi].
  assert (Hne : snake_segments g <> []) by (rewrite Hs; discriminate).
  assert (Hci : (position <$> shifted g) !! i = Some (position c))
    by (rewrite list_lookup_fmap, Hi; reflexivity).
  rewrite (shifted_positions g Hne) in Hci.
  assert (Hc_at : position c =
            (xcor (head g) - Z.of_nat i * fst (heading (direction g)),
             ycor (head g) - Z.of_nat i * snd (heading (direction g)))).
  { destruct i as [|i].
    - change (Some (position (head g)) = Some (position c)) in Hci.
      assert (Hpc : position c = position (head g)) by congruence.
      rewrite Hpc. unfold position. f_equal; lia.
    - rewrite lookup_cons_ne_0 in Hci by lia. cbn [pred] in Hci.
      apply lookup_take_Some in Hci as [Hci _].
      rewrite (Hline i _ Hci). f_equal; lia. }
  unfold distance_lt, distance_squared. apply Z.ltb_ge.
  unfold position in Hh, Hc_at. injection Hh as Hx Hy. injection Hc_at as Hx' Hy'.
  rewrite Hx, Hy, Hx', Hy'. change GRID_SIZE with 20 in *.
  destruct Hcard as [E|[E|[E|E]]]; rewrite E; cbn [fst snd]; nia.
Qed.

Lemma trailing_segment_is_no_self_collision_witness :
  let g := with_direction "right"
             (with_segments [mkTurtle (-20) 0 true; mkTurtle (-40) 0 true]
                (globals_at_start (tape []))) in
  exists s' rest',
    snake_segments (move_snake g) = s' :: rest' /\
    position s' = (0, 0) /\
    distance_squared (head (move_snake g)) s' = 400 /\
    distance_lt (head (move_snake g)) s' 18 = false /\
    collides_with_self (move_snake g) = false.
Proof.
  intros g.
  destruct (trailing_segment_is_no_self_collision g
              (mkTurtle (-20) 0 true) [mkTurtle (-40) 0 true])
    as (s' & rest' & H1 & H2 & H3 & H4 & H5).
  - right. right. right. reflexivity.
  - reflexivity.
  - exists s', rest'.
    split; [exact H1|]. split; [exact H2|]. split; [exact H3|].
    split; [exact H4|]. apply H5.
    intros i c Hi. destruct i as [|[|i]]; cbn in Hi; try discriminate;
      injection Hi as <-; reflexivity.
Defined.

(** ** How the loop body acts on the globals *)

Ltac fields :=
  cbn [delay score high_score snake_segments direction food xenia paused
       foods_eaten_in_level head entropy drawn
       with_delay with_score with_high_score with_segments with_direction
       with_food with_xenia with_paused with_foods_eaten with_head with_drawn
       fst snd].

Lemma eat_food_effect g :
  score (eat_food g) = score g + FOOD_SCORE /\
  high_score (eat_food g) = Z.max (high_score g) (score g + FOOD_SCORE) /\
  snake_segments (eat_food g) = snake_segments g ++ [goto 1000 1000 new_turtle] /\
  head (eat_food g) = head g /\
  direction (eat_food g) = direction g /\
  paused (eat_food g) = paused g /\
  delay (eat_food g) =
    delay (increase_speed_on_level_progress
             (with_foods_eaten (foods_eaten_in_level g + 1) g)).
Proof.
  unfold eat_food.
  match goal with |- context [place_food ?h] =>
    destruct (place_food_frame h) as (f & k & E); rewrite E; clear E end.
  match goal with |- context [place_xenia ?h] =>
    destruct (place_xenia_frame h) as (x & k' & E); rewrite E; clear E end.
  unfold update_high_score, increase_speed_on_level_progress, set_delay, spawn_segment.
  fields.
  destruct (foods_eaten_in_level g + 1 >=? LEVEL_UP_FOOD_COUNT); fields;
    destruct (Z.gtb_spec (score g + FOOD_SCORE) (high_score g)); fields;
    repeat split; lia.
Qed.

Lemma eat_xenia_effect g :
  score (eat_xenia g) = score g + XENIA_SCORE /\
  high_score (eat_xenia g) = Z.max (high_score g) (score g + XENIA_SCORE) /\
  snake_segments (eat_xenia g) =
    snake_segments g ++ [goto 1000 1000 new_turtle; goto 1000 1000 new_turtle] /\
  head (eat_xenia g) = head g /\
  direction (eat_xenia g) = direction g /\
  paused (eat_xenia g) = paused g /\
  delay (eat_xenia g) =
    delay (increase_speed_on_level_progress
             (with_foods_eaten (foods_eaten_in_level g + 1) g)).
Proof.
  unfold eat_xenia, apply_xenia_effect, update_high_score,
    increase_speed_on_level_progress, set_delay, spawn_segment.
  fields.
  destruct (foods_eaten_in_level g + 1 >=? LEVEL_UP_FOOD_COUNT); fields;
    destruct (Z.gtb_spec (score g + XENIA_SCORE) (high_score g)); fields;
    rewrite <- ?app_assoc; repeat split; lia.
Qed.

Lemma game_over_effect g :
  score (game_over g) = 0 /\
  high_score (game_over g) = high_score g /\
  snake_segments (game_over g) = [] /\
  head (game_over g) = goto 0 0 (head g) /\
  direction (game_over g) = "stop"%string /\
  paused (game_over g) = paused g /\
  delay (game_over g) = INITIAL_SPEED /\
  foods_eaten_in_level (game_over g) = 0 /\
  food (game_over g) = food g /\
  xenia (game_over g) = option_map hideturtle (xenia g).
Proof.
  unfold game_over, reset_game_state. fields.
  destruct (xenia g) eqn:Hx; fields; rewrite ?Hx; repeat split.
Qed.

Lemma move_snake_effect g :
  score (move_snake g) = score g /\
  high_score (move_snake g) = high_score g /\
  snake_segments (move_snake g) = shifted g /\
  head (move_snake g) = advance (direction g) (head g) /\
  direction (move_snake g) = direction g /\
  paused (move_snake g) = paused g /\
  delay (move_snake g) = delay g /\
  foods_eaten_in_level (move_snake g) = foods_eaten_in_level g /\
  food (move_snake g) = food g /\
  xenia (move_snake g) = xenia g.
Proof. rewrite move_snake_eq. repeat split. Qed.

Lemma restart_game_effect g :
  score (restart_game g) = 0 /\
  high_score (restart_game g) = high_score g /\
  snake_segments (restart_game g) = [] /\
  head (restart_game g) = goto 0 0 (head g) /\
  direction (restart_game g) = "stop"%string /\
  paused (restart_game g) = paused g /\
  delay (restart_game g) = INITIAL_SPEED.
Proof.
  unfold restart_game.
  destruct (place_food_frame (reset_game_state g)) as (f & k & ->).
  unfold reset_game_state. fields.
  destruct (xenia g) eqn:Hx; fields; rewrite ?Hx; fields; repeat split.
Qed.

Lemma initial_effect rnd :
  score (initial rnd) = 0 /\
  high_score (initial rnd) = 0 /\
  snake_segments (initial rnd) = [] /\
  head (initial rnd) = create_snake_head /\
  direction (initial rnd) = "stop"%string /\
  paused (initial rnd) = false /\
  delay (initial rnd) = INITIAL_SPEED.
Proof.
  unfold initial.
  destruct (place_food_frame (globals_at_start rnd)) as (f & k & ->).
  match goal with |- context [place_xenia ?h] =>
    destruct (place_xenia_frame h) as (x & k' & ->) end.
  repeat split.
Qed.

(** A key that is neither restart nor quit changes the direction or the
    pause flag only. *)
Lemma on_key_effect k g :
  is_restart k = false ->
  score (on_key k g) = score g /\
  high_score (on_key k g) = high_score g /\
  snake_segments (on_key k g) = snake_segments g /\
  head (on_key k g) = head g /\
  delay (on_key k g) = delay g.
Proof.
  intros Hk. destruct k; try discriminate Hk; cbn [on_key];
    unfold go_up, go_down, go_left, go_right, toggle_pause;
    try (destruct (negb _)); repeat split.
Qed.

(** ** The high score (C5) *)

Lemma check_collisions_tracks : tracks_high_score check_collisions.
Proof.
  intros h [H0 H1]. unfold check_collisions, score_ok.
  destruct (game_over_effect h) as (Hs & Hh & _).
  destruct (collides_with_wall _ _); [rewrite Hs, Hh; lia|].
  destruct (collides_with_self h); [rewrite Hs, Hh; lia|]. lia.
Qed.

Lemma check_food_tracks : tracks_high_score check_food.
Proof.
  intros h [H0 H1]. unfold check_food, score_ok.
  destruct (eat_food_effect h) as (Hs & Hh & _).
  destruct (food_hit h); [|lia].
  rewrite Hs, Hh. unfold FOOD_SCORE. lia.
Qed.

Lemma check_xenia_tracks : tracks_high_score check_xenia.
Proof.
  intros h [H0 H1]. unfold check_xenia, score_ok.
  destruct (eat_xenia_effect h) as (Hs & Hh & _).
  destruct (xenia_hit h); [|lia].
  rewrite Hs, Hh. unfold XENIA_SCORE. lia.
Qed.

Lemma step_score e g :
  score_ok g ->
  score_ok (step e g) /\
  high_score g <= high_score (step e g) /\
  Forall (fun s => s <= high_score (step e g)) (scores_during e g) /\
  (high_score (step e g) = high_score g \/
   high_score (step e g) ∈ scores_during e g).
Proof.
  intros Hok. destruct e as [k|]; cbn [step scores_during].
  - assert (Hk : score_ok (on_key k g) /\ high_score (on_key k g) = high_score g).
    { destruct (is_restart k) eqn:Hk.
      - assert (on_key k g = restart_game g) as -> by (by destruct k).
        destruct (restart_game_effect g) as (Hs & Hh & _).
        unfold score_ok in *. rewrite Hs, Hh. lia.
      - destruct (on_key_effect k g Hk) as (Hs & Hh & _).
        unfold score_ok in *. rewrite Hs, Hh. lia. }
    destruct Hk as [Hok' Hh]. split; [exact Hok'|]. split; [lia|].
    split; [|by left]. constructor; [apply Hok'|constructor].
  - unfold tick. destruct (moving g).
    2:{ split; [exact Hok|]. split; [lia|]. split; [constructor|by left]. }
    destruct (move_snake_effect g) as (Hs0 & Hh0 & _).
    assert (Hok0 : score_ok (move_snake g))
      by (unfold score_ok in *; rewrite Hs0, Hh0; exact Hok).
    set (g1 := check_collisions (move_snake g)).
    set (g2 := check_food g1). set (g3 := check_xenia g2).
    destruct (check_collisions_tracks _ Hok0) as (Hok1 & Hle1 & Heq1).
    fold g1 in Hok1, Hle1, Heq1.
    destruct (check_food_tracks _ Hok1) as (Hok2 & Hle2 & Heq2).
    fold g2 in Hok2, Hle2, Heq2.
    destruct (check_xenia_tracks _ Hok2) as (Hok3 & Hle3 & Heq3).
    fold g3 in Hok3, Hle3, Heq3.
    assert (Hh1 : high_score g1 = high_score g).
    { unfold g1, check_collisions.
      destruct (game_over_effect (move_snake g)) as (_ & Hh & _).
      destruct (collides_with_wall _ _); [congruence|].
      destruct (collides_with_self _); congruence. }
    unfold score_ok in *.
    split; [exact Hok3|]. split; [lia|]. split.
    + repeat constructor; lia.
    + destruct Heq3 as [E3|E3];
        [|right; rewrite E3, !elem_of_cons; tauto].
      destruct Heq2 as [E2|E2];
        [|right; rewrite E3, E2, !elem_of_cons; tauto].
      left. lia.
Qed.

Lemma run_score evs : forall g,
  score_ok g ->
  score_ok (run evs g) /\
  high_score g <= high_score (run evs g) /\
  Forall (fun s => s <= high_score (run evs g)) (score_history evs g) /\
  (high_score (run evs g) = high_score g \/
   high_score (run evs g) ∈ score_history evs g).
Proof.
  induction evs as [|e evs IH]; intros g Hok; cbn [run score_history].
  - split; [exact Hok|]. split; [lia|]. split; [constructor|by left].
  - destruct (ends_process e).
    { split; [exact Hok|]. split; [lia|]. split; [constructor|by left]. }
    destruct (step_score e g Hok) as (Hok1 & Hle1 & Hall1 & Heq1).
    destruct (IH _ Hok1) as (Hok2 & Hle2 & Hall2 & Heq2).
    split; [exact Hok2|]. split; [lia|]. split.
    + apply Forall_app. split; [|exact Hall2].
      eapply Forall_impl; [exact Hall1|]. cbn. intros s Hs. lia.
    + destruct Heq2 as [E2|E2]; [|right; rewrite elem_of_app; tauto].
      destruct Heq1 as [E1|E1]; [left; lia|].
      right. rewrite E2, elem_of_app. tauto.
Qed.

Lemma run_app_high evs1 evs2 g :
  score_ok g -> high_score (run evs1 g) <= high_score (run (evs1 ++ evs2) g).
Proof.
  revert g. induction evs1 as [|e evs1 IH]; intros g Hok.
  - cbn [app run]. apply run_score, Hok.
  - cbn [app run]. destruct (ends_process e); [lia|].
    apply IH, step_score, Hok.
Qed.

Lemma initial_score_ok rnd : score_ok (initial rnd).
Proof.
  destruct (initial_effect rnd) as (Hs & Hh & _).
  unfold score_ok. rewrite Hs, Hh. lia.
Qed.

(** C5. Whatever keys are pressed and however often the loop body runs
    (game overs and restarts included), the high score never decreases
    from one point of the run to a later one, and at every point it is the
    maximum of all the values the score has held since the start: it
    bounds them all and is one of them. *)
Theorem high_score_is_running_maximum (rnd : nat -> nat) (evs : list Event) :
  (forall evs', high_score (run evs (initial rnd))
                <= high_score (run (evs ++ evs') (initial rnd))) /\
  Forall (fun s => s <= high_score (run evs (initial rnd)))
         (score (initial rnd) :: score_history evs (initial rnd)) /\
  high_score (run evs (initial rnd))
    ∈ score (initial rnd) :: score_history evs (initial rnd).
Proof.
  pose proof (initial_score_ok rnd) as Hok.
  destruct (run_score evs _ Hok) as (Hok' & Hle & Hall & Heq).
  destruct (initial_effect rnd) as (Hs & Hh & _).
  split; [intros evs'; by apply run_app_high|]. split.
  - constructor; [|exact Hall]. unfold score_ok in Hok. lia.
  - destruct Heq as [E|E]; [|by right].
    rewrite E, Hh, Hs. by left.
Qed.

(** A run with a game over and a restart in it: the score goes back to
    zero twice, the high score stays. *)
Example high_score_survives_restart :
  let evs := [KeyPress Key_Right; Tick; KeyPress Key_r; KeyPress Key_Up; Tick] in
  let g := run evs (initial (tape [14; 13; 1; 0; 0; 1]%nat)) in
  score_history evs (initial (tape [14; 13; 1; 0; 0; 1]%nat))
    = [0; 0; 10; 10; 0; 0; 0; 0; 0] /\
  score g = 0 /\ high_score g = 10.
Proof. vm_compute. repeat split. Qed.

(** ** The step delay (C6) *)

Ltac pick_member := first [left; reflexivity | right; pick_member].

(** One level-up from a delay of the ladder, computed on the binary64
    values themselves. *)
Lemma delay_levels_step d :
  In d delay_levels ->
  let d' := py_max SPEED_MIN (PrimFloat.sub d SPEED_DECREMENT) in
  let d'' := py_max SPEED_MIN (PrimFloat.sub d' SPEED_DECREMENT) in
  In d' delay_levels /\
  PrimFloat.leb d d = true /\
  PrimFloat.leb d' d = true /\
  PrimFloat.leb d'' d = true /\
  PrimFloat.leb SPEED_MIN d = true /\
  (PrimFloat.ltb SPEED_MIN d = true -> PrimFloat.ltb d' d = true).
Proof.
  intros H. vm_compute in H.
  repeat (destruct H as [H|H]; [subst d; vm_compute; split; [pick_member|tauto]|]).
  destruct H.
Qed.

Lemma increase_speed_delay h :
  delay_ok h ->
  delay_ok (increase_speed_on_level_progress h) /\
  (delay (increase_speed_on_level_progress h) = delay h \/
   delay (increase_speed_on_level_progress h) =
     py_max SPEED_MIN (PrimFloat.sub (delay h) SPEED_DECREMENT)).
Proof.
  intros Hok. unfold increase_speed_on_level_progress, set_delay, delay_ok.
  destruct (foods_eaten_in_level h >=? LEVEL_UP_FOOD_COUNT); fields.
  - split; [|by right]. apply delay_levels_step, Hok.
  - split; [exact Hok|by left].
Qed.

Lemma not_fatal_check_collisions g :
  is_fatal g = false -> moving g = true ->
  check_collisions (move_snake g) = move_snake g.
Proof.
  unfold is_fatal, check_collisions. intros Hf Hm. rewrite Hm in Hf.
  cbn [andb] in Hf. apply orb_false_iff in Hf as [-> ->]. reflexivity.
Qed.

(** A consumable branch leaves the delay or takes it one level down. *)
Lemma check_food_delay h :
  delay_ok h ->
  delay_ok (check_food h) /\
  (delay (check_food h) = delay h \/
   delay (check_food h) = py_max SPEED_MIN (PrimFloat.sub (delay h) SPEED_DECREMENT)).
Proof.
  intros Hok. unfold check_food. destruct (food_hit h); [|by split; [|left]].
  destruct (eat_food_effect h) as (_ & _ & _ & _ & _ & _ & Hd).
  unfold delay_ok. rewrite Hd.
  apply (increase_speed_delay (with_foods_eaten (foods_eaten_in_level h + 1) h)), Hok.
Qed.

Lemma check_xenia_delay h :
  delay_ok h ->
  delay_ok (check_xenia h) /\
  (delay (check_xenia h) = delay h \/
   delay (check_xenia h) = py_max SPEED_MIN (PrimFloat.sub (delay h) SPEED_DECREMENT)).
Proof.
  intros Hok. unfold check_xenia. destruct (xenia_hit h); [|by split; [|left]].
  destruct (eat_xenia_effect h) as (_ & _ & _ & _ & _ & _ & Hd).
  unfold delay_ok. rewrite Hd.
  apply (increase_speed_delay (with_foods_eaten (foods_eaten_in_level h + 1) h)), Hok.
Qed.

Lemma check_collisions_delay h :
  delay_ok h -> delay_ok (check_collisions h).
Proof.
  intros Hok. unfold check_collisions, delay_ok.
  destruct (game_over_effect h) as (_ & _ & _ & _ & _ & _ & Hd & _).
  assert (In INITIAL_SPEED delay_levels) by (by left).
  destruct (collides_with_wall _ _); [by rewrite Hd|].
  destruct (collides_with_self h); [by rewrite Hd|exact Hok].
Qed.

Lemma step_delay_ok e g : delay_ok g -> delay_ok (step e g).
Proof.
  intros Hok. destruct e as [k|]; cbn [step].
  - destruct (is_restart k) eqn:Hk.
    + assert (on_key k g = restart_game g) as -> by (by destruct k).
      destruct (restart_game_effect g) as (_ & _ & _ & _ & _ & _ & Hd).
      unfold delay_ok. rewrite Hd. by left.
    + destruct (on_key_effect k g Hk) as (_ & _ & _ & _ & Hd).
      unfold delay_ok. by rewrite Hd.
  - unfold tick. destruct (moving g); [|exact Hok].
    apply check_xenia_delay, check_food_delay, check_collisions_delay.
    destruct (move_snake_effect g) as (_ & _ & _ & _ & _ & _ & Hd & _).
    unfold delay_ok. by rewrite Hd.
Qed.

Lemma run_delay_ok evs : forall g, delay_ok g -> delay_ok (run evs g).
Proof.
  induction evs as [|e evs IH]; intros g Hok; cbn [run]; [exact Hok|].
  destruct (ends_process e); [exact Hok|]. apply IH, step_delay_ok, Hok.
Qed.

Lemma initial_delay_ok rnd : delay_ok (initial rnd).
Proof.
  destruct (initial_effect rnd) as (_ & _ & _ & _ & _ & _ & Hd).
  unfold delay_ok. rewrite Hd. by left.
Qed.

Lemma step_delay_within e g :
  delay_ok g -> within_game e g = true ->
  PrimFloat.leb (delay (step e g)) (delay g) = true.
Proof.
  intros Hok Hw.
  destruct (delay_levels_step _ Hok) as (Hin' & Hrefl & Hle1 & Hle2 & _).
  destruct e as [k|]; cbn [step within_game] in *.
  - apply negb_true_iff in Hw.
    destruct (on_key_effect k g Hw) as (_ & _ & _ & _ & Hd). by rewrite Hd.
  - apply negb_true_iff in Hw. unfold tick.
    destruct (moving g) eqn:Hm; [|exact Hrefl].
    rewrite (not_fatal_check_collisions g Hw Hm).
    destruct (move_snake_effect g) as (_ & _ & _ & _ & _ & _ & Hd & _).
    assert (Hok0 : delay_ok (move_snake g)) by (unfold delay_ok; by rewrite Hd).
    destruct (check_food_delay _ Hok0) as (Hok1 & Hd1).
    destruct (check_xenia_delay _ Hok1) as (_ & Hd2).
    rewrite Hd in Hd1.
    destruct Hd2 as [-> | ->]; destruct Hd1 as [-> | ->]; assumption.
Qed.

(** C6. At every point of a run the delay is at least [SPEED_MIN], and a
    key press other than a restart request, or a loop body that does not
    end the game, leaves a delay that is not above the one before.  A
    level-up ([foods_eaten_in_level] at the threshold) sets the counter to
    zero and the delay to [max(SPEED_MIN, delay - SPEED_DECREMENT)], which
    is not above the old delay, not below [SPEED_MIN], and strictly below
    the old delay unless that already was [SPEED_MIN]; below the threshold
    nothing changes. *)
Theorem delay_never_increases_within_a_game
    (rnd : nat -> nat) (evs : list Event) (e : Event) :
  within_game e (run evs (initial rnd)) = true ->
  PrimFloat.leb (delay (step e (run evs (initial rnd))))
                (delay (run evs (initial rnd))) = true /\
  PrimFloat.leb SPEED_MIN (delay (run evs (initial rnd))) = true /\
  PrimFloat.leb SPEED_MIN (delay (step e (run evs (initial rnd)))) = true /\
  (forall h, delay h = delay (run evs (initial rnd)) ->
     (foods_eaten_in_level h >= LEVEL_UP_FOOD_COUNT ->
        foods_eaten_in_level (increase_speed_on_level_progress h) = 0 /\
        delay (increase_speed_on_level_progress h) =
          py_max SPEED_MIN (PrimFloat.sub (delay h) SPEED_DECREMENT) /\
        PrimFloat.leb (delay (increase_speed_on_level_progress h)) (delay h) = true /\
        PrimFloat.leb SPEED_MIN (delay (increase_speed_on_level_progress h)) = true /\
        (PrimFloat.ltb SPEED_MIN (delay h) = true ->
         PrimFloat.ltb (delay (increase_speed_on_level_progress h)) (delay h) = true)) /\
     (foods_eaten_in_level h < LEVEL_UP_FOOD_COUNT ->
        increase_speed_on_level_progress h = h)).
Proof.
  intros Hw.
  pose proof (run_delay_ok evs _ (initial_delay_ok rnd)) as Hok.
  pose proof (step_delay_ok e _ Hok) as Hok'.
  split; [by apply step_delay_within|].
  split; [apply (delay_levels_step _ Hok)|].
  split; [apply (delay_levels_step _ Hok')|].
  intros h Hh. unfold increase_speed_on_level_progress, set_delay. split.
  - intros Hge.
    replace (foods_eaten_in_level h >=? LEVEL_UP_FOOD_COUNT) with true
      by (symmetry; apply Z.geb_le; lia).
    fields. rewrite Hh.
    destruct (delay_levels_step _ Hok) as (Hin & _ & Hle & _ & _ & Hlt).
    split; [reflexivity|]. split; [reflexivity|]. split; [exact Hle|].
    split; [apply (delay_levels_step _ Hin)|exact Hlt].
  - intros Hlt.
    replace (foods_eaten_in_level h >=? LEVEL_UP_FOOD_COUNT) with false; [reflexivity|].
    symmetry. destruct (Z.geb_spec (foods_eaten_in_level h) LEVEL_UP_FOOD_COUNT); [lia|reflexivity].
Qed.

Lemma delay_never_increases_within_a_game_witness :
  (delay (run [KeyPress Key_Right; Tick; Tick; Tick; Tick]
            (initial (tape [14; 13; 1; 15; 13; 1; 16; 13; 1; 17; 13; 1; 18; 13; 1]%nat)))
     = 0.12%float /\
   delay (step Tick (run [KeyPress Key_Right; Tick; Tick; Tick; Tick]
            (initial (tape [14; 13; 1; 15; 13; 1; 16; 13; 1; 17; 13; 1; 18; 13; 1]%nat))))
     = 0.11499999999999999%float) /\
  PrimFloat.leb
    (delay (step Tick (run [KeyPress Key_Right; Tick; Tick; Tick; Tick]
            (initial (tape [14; 13; 1; 15; 13; 1; 16; 13; 1; 17; 13; 1; 18; 13; 1]%nat)))))
    (delay (run [KeyPress Key_Right; Tick; Tick; Tick; Tick]
            (initial (tape [14; 13; 1; 15; 13; 1; 16; 13; 1; 17; 13; 1; 18; 13; 1]%nat))))
    = true.
Proof.
  split; [split; vm_compute; reflexivity|].
  assert (Hw : within_game Tick
                 (run [KeyPress Key_Right; Tick; Tick; Tick; Tick]
                    (initial (tape [14; 13; 1; 15; 13; 1; 16; 13; 1; 17; 13; 1; 18; 13; 1]%nat)))
               = true) by (vm_compute; reflexivity).
  exact (proj1 (delay_never_increases_within_a_game _ _ Tick Hw)).
Defined.

(** ** The body (C3, C4) *)

Lemma origin_inside : inside_walls (0, 0).
Proof. unfold inside_walls. cbn. split; split; discriminate. Qed.

Lemma body_ok_origin g :
  snake_segments g = [] -> position (head g) = (0, 0) -> body_ok g.
Proof.
  intros Hs Hh. exists [], 0%nat. rewrite Hs, Hh. split; [reflexivity|].
  split.
  - apply NoDup_singleton.
  - repeat constructor; apply origin_inside.
Qed.

Lemma body_ok_same g h :
  head h = head g -> snake_segments h = snake_segments g -> body_ok g -> body_ok h.
Proof. intros Hh Hs (live & parked & H). exists live, parked. by rewrite Hh, Hs. Qed.

Lemma body_ok_spawn g h n :
  head h = head g ->
  snake_segments h = snake_segments g ++ replicate n (goto 1000 1000 new_turtle) ->
  body_ok g -> body_ok h.
Proof.
  intros Hh Hs (live & parked & Hseg & Hnd & Hin).
  exists live, (parked + n)%nat. rewrite Hh, Hs. split; [|by split].
  rewrite fmap_app, Hseg, fmap_replicate, <- app_assoc, <- replicate_add.
  reflexivity.
Qed.

(** The shifted segments are the old head, then cells of the old live part,
    then the parked segments but one. *)
Lemma shifted_split g live parked :
  snake_segments g <> [] ->
  position <$> snake_segments g = live ++ replicate parked OFF_SCREEN ->
  exists live' parked',
    position <$> shifted g = (position (head g) :: live') ++ replicate parked' OFF_SCREEN /\
    live' `sublist_of` live.
Proof.
  intros Hne Hseg. rewrite (shifted_positions g Hne).
  assert (Hlen : length (snake_segments g) = (length live + parked)%nat).
  { rewrite <- (length_fmap position), Hseg, length_app, length_replicate. lia. }
  rewrite Hseg, Hlen. destruct parked as [|p].
  - exists (take (length live + 0 - 1) live), 0%nat. cbn [replicate].
    rewrite !app_nil_r. split; [reflexivity|apply sublist_take].
  - exists live, p. split; [|reflexivity].
    replace (length live + S p - 1)%nat with (length live + p)%nat by lia.
    rewrite take_app_add' by reflexivity.
    rewrite take_replicate. by replace (p `min` S p)%nat with p by lia.
Qed.

Lemma body_ok_move g :
  body_ok g ->
  collides_with_wall (xcor (head (move_snake g))) (ycor (head (move_snake g))) = false ->
  collides_with_self (move_snake g) = false ->
  body_ok (move_snake g).
Proof.
  intros (live & parked & Hseg & Hnd & Hin) Hwall Hself.
  destruct (move_snake_effect g) as (_ & _ & Hsegs & _).
  assert (Hnew_in : inside_walls (position (head (move_snake g)))).
  { apply no_wall_inside in Hwall. exact Hwall. }
  destruct (decide (snake_segments g = [])) as [Hnil|Hne].
  - exists [], 0%nat. rewrite Hsegs. unfold shifted. rewrite Hnil.
    split; [reflexivity|]. split; [apply NoDup_singleton|].
    repeat constructor; apply Hnew_in.
  - destruct (shifted_split g live parked Hne Hseg) as (live' & parked' & Hsh & Hsub).
    exists (position (head g) :: live'), parked'. rewrite Hsegs.
    split; [exact Hsh|].
    assert (Hold : position (head g) :: live' `sublist_of` position (head g) :: live)
      by (by apply sublist_skip).
    split.
    + apply NoDup_cons. split; [|by eapply sublist_NoDup].
      intros Hmem.
      assert (Hmem' : position (head (move_snake g)) ∈ position <$> shifted g).
      { rewrite Hsh. apply elem_of_app. by left. }
      apply list_elem_of_fmap in Hmem' as (seg & Hpos & Hseg_in).
      unfold collides_with_self in Hself. rewrite Hsegs in Hself.
      pose proof (existsb_false_inv _ _ seg Hself Hseg_in) as Hd.
      unfold distance_lt, distance_squared in Hd. apply Z.ltb_ge in Hd.
      unfold position in Hpos. injection Hpos as Hx Hy.
      rewrite Hx, Hy in Hd. change GRID_SIZE with 20 in Hd. lia.
    + constructor; [exact Hnew_in|].
      apply Forall_forall. intros c Hc.
      rewrite Forall_forall in Hin. apply Hin. by eapply elem_of_sublist.
Qed.

Lemma body_ok_check_collisions g :
  body_ok g -> body_ok (check_collisions (move_snake g)).
Proof.
  intros Hok. unfold check_collisions.
  destruct (game_over_effect (move_snake g)) as (_ & _ & Hs & Hh & _).
  assert (Hover : body_ok (game_over (move_snake g)))
    by (apply body_ok_origin; [exact Hs|by rewrite Hh]).
  destruct (collides_with_wall _ _) eqn:Hwall; [exact Hover|].
  destruct (collides_with_self _) eqn:Hself; [exact Hover|].
  by apply body_ok_move.
Qed.

Lemma body_ok_check_food g : body_ok g -> body_ok (check_food g).
Proof.
  intros Hok. unfold check_food. destruct (food_hit g); [|exact Hok].
  destruct (eat_food_effect g) as (_ & _ & Hs & Hh & _).
  by apply (body_ok_spawn g _ 1).
Qed.

Lemma body_ok_check_xenia g : body_ok g -> body_ok (check_xenia g).
Proof.
  intros Hok. unfold check_xenia. destruct (xenia_hit g); [|exact Hok].
  destruct (eat_xenia_effect g) as (_ & _ & Hs & Hh & _).
  by apply (body_ok_spawn g _ 2).
Qed.

Lemma step_body_ok e g : body_ok g -> body_ok (step e g).
Proof.
  intros Hok. destruct e as [k|]; cbn [step].
  - destruct (is_restart k) eqn:Hk.
    + assert (on_key k g = restart_game g) as -> by (by destruct k).
      destruct (restart_game_effect g) as (_ & _ & Hs & Hh & _).
      apply body_ok_origin; [exact Hs|by rewrite Hh].
    + destruct (on_key_effect k g Hk) as (_ & _ & Hs & Hh & _).
      by apply (body_ok_same g).
  - unfold tick. destruct (moving g); [|exact Hok].
    by apply body_ok_check_xenia, body_ok_check_food, body_ok_check_collisions.
Qed.

Lemma run_body_ok evs : forall g, body_ok g -> body_ok (run evs g).
Proof.
  induction evs as [|e evs IH]; intros g Hok; cbn [run]; [exact Hok|].
  destruct (ends_process e); [exact Hok|]. apply IH, step_body_ok, Hok.
Qed.

Lemma initial_body_ok rnd : body_ok (initial rnd).
Proof.
  destruct (initial_effect rnd) as (_ & _ & Hs & Hh & _).
  apply body_ok_origin; [exact Hs|by rewrite Hh].
Qed.

Lemma body_cells_of_ok g i j c :
  body_ok g -> (i < j)%nat ->
  body g !! i = Some c -> body g !! j = Some c ->
  c = OFF_SCREEN /\ (0 < i)%nat.
Proof.
  intros (live & parked & Hseg & Hnd & Hin) Hij Hi Hj.
  unfold body in Hi, Hj. rewrite Hseg in Hi, Hj.
  rewrite app_comm_cons in Hi, Hj.
  set (front := position (head g) :: live) in *.
  assert (Hoff : ~ inside_walls OFF_SCREEN).
  { unfold inside_walls, OFF_SCREEN. cbn. intros [[_ H] _]. by apply H. }
  assert (Hfront : forall k, (front ++ replicate parked OFF_SCREEN) !! k = Some c ->
             (k < length front)%nat -> c <> OFF_SCREEN).
  { intros k Hk Hlt Hc. rewrite lookup_app_l in Hk by exact Hlt.
    apply list_elem_of_lookup_2 in Hk. rewrite Forall_forall in Hin.
    apply Hoff. rewrite <- Hc. by apply Hin. }
  destruct (decide (j < length front)%nat) as [Hlt|Hge].
  - exfalso. assert (i = j); [|lia].
    apply (NoDup_lookup front i j c Hnd).
    + by rewrite lookup_app_l in Hi by lia.
    + by rewrite lookup_app_l in Hj by lia.
  - rewrite lookup_app_r in Hj by lia.
    apply lookup_replicate in Hj as [-> _]. split; [reflexivity|].
    destruct i as [|i]; [|lia]. exfalso.
    apply (Hfront 0%nat Hi); [cbn; lia|reflexivity].
Qed.

(** C4 (as the code has it). At every point of a run, two cells of the
    snake's body (head first, then the segments) that hold the same
    coordinate are both segments still parked at the off-screen cell
    (1000, 1000) where [spawn_segment] puts them; the head and the
    segments that have been moved onto the board are pairwise distinct. *)
Theorem snake_cells_distinct_unless_parked
    (rnd : nat -> nat) (evs : list Event) (i j : nat) (c : Z * Z) :
  (i < j)%nat ->
  body (run evs (initial rnd)) !! i = Some c ->
  body (run evs (initial rnd)) !! j = Some c ->
  c = OFF_SCREEN /\ (0 < i)%nat.
Proof.
  apply body_cells_of_ok, run_body_ok, initial_body_ok.
Qed.

Lemma snake_cells_distinct_unless_parked_witness :
  body xenia_run !! 1%nat = Some (1000, 1000) /\
  body xenia_run !! 2%nat = Some (1000, 1000) /\
  ((1000, 1000) = OFF_SCREEN /\ (0 < 1)%nat).
Proof.
  split; [reflexivity|]. split; [reflexivity|].
  apply (snake_cells_distinct_unless_parked (tape [0; 0; 0; 14; 13]%nat)
           [KeyPress Key_Right; Tick] 1 2 (1000, 1000)).
  - lia.
  - reflexivity.
  - reflexivity.
Defined.

(** The claim as stated fails: after the loop body in which the Xenia is
    eaten, the two bonus segments share one coordinate. *)
Lemma two_segments_share_a_cell :
  body xenia_run = [(20, 0); (1000, 1000); (1000, 1000)] /\
  ~ NoDup (body xenia_run).
Proof.
  assert (H : body xenia_run = [(20, 0); (1000, 1000); (1000, 1000)])
    by (vm_compute; reflexivity).
  split; [exact H|]. rewrite H. intros Hnd.
  apply NoDup_cons in Hnd as [_ Hnd]. apply NoDup_cons in Hnd as [Hnot _].
  apply Hnot. by left.
Qed.

(** C3 (as the code has it). [spawn_segment] appends exactly one segment and
    leaves the rest of the snake alone; the new segment is parked at the
    off-screen cell (1000, 1000).  The next [move_snake] brings it to the
    cell that was the last of the body when it was spawned. *)
Theorem spawn_segment_parks_off_screen (g : Game) :
  snake_segments (spawn_segment g) = snake_segments g ++ [goto 1000 1000 new_turtle] /\
  length (snake_segments (spawn_segment g)) = S (length (snake_segments g)) /\
  head (spawn_segment g) = head g /\
  last (position <$> snake_segments (spawn_segment g)) = Some OFF_SCREEN /\
  length (snake_segments (move_snake (spawn_segment g)))
    = S (length (snake_segments g)) /\
  last (position <$> snake_segments (move_snake (spawn_segment g))) = last (body g).
Proof.
  assert (Hs : snake_segments (spawn_segment g)
               = snake_segments g ++ [goto 1000 1000 new_turtle]) by reflexivity.
  assert (Hne : snake_segments (spawn_segment g) <> []).
  { rewrite Hs. intros H. apply app_nil in H as [_ H]. discriminate. }
  assert (Hlen : length (snake_segments (spawn_segment g)) = S (length (snake_segments g))).
  { rewrite Hs, length_app. cbn. lia. }
  destruct (move_snake_effect (spawn_segment g)) as (_ & _ & Hm & _).
  split; [exact Hs|]. split; [exact Hlen|]. split; [reflexivity|].
  split; [rewrite Hs, fmap_app; apply last_snoc|].
  split; [by rewrite Hm, shifted_length|].
  rewrite Hm, (shifted_positions _ Hne), Hlen, Hs, fmap_app.
  replace (S (length (snake_segments g)) - 1)%nat
    with (length (position <$> snake_segments g)) by (rewrite length_fmap; lia).
  by rewrite take_app_length.
Qed.

(** The claim as stated fails: the snake, one cell long at the origin, steps
    onto the food; the segment it grows is at (1000, 1000), not at the
    origin, where its tail cell was before the step. *)
Lemma grown_segment_is_not_at_previous_tail :
  food_hit (check_collisions (move_snake before_first_food)) = true /\
  last (body before_first_food) = Some (0, 0) /\
  body (tick before_first_food) = [(20, 0); (1000, 1000)] /\
  last (body (tick before_first_food)) <> last (body before_first_food).
Proof.
  split; [vm_compute; reflexivity|]. split; [vm_compute; reflexivity|].
  split; [vm_compute; reflexivity|]. vm_compute. discriminate.
Qed.

(** ** Game over (C1, C2) *)

Lemma check_food_keeps h :
  direction (check_food h) = direction h /\ head (check_food h) = head h /\
  paused (check_food h) = paused h.
Proof.
  unfold check_food. destruct (food_hit h); [|by repeat split].
  destruct (eat_food_effect h) as (_ & _ & _ & Hh & Hd & Hp & _). by repeat split.
Qed.

Lemma check_xenia_keeps h :
  direction (check_xenia h) = direction h /\ head (check_xenia h) = head h /\
  paused (check_xenia h) = paused h.
Proof.
  unfold check_xenia. destruct (xenia_hit h); [|by repeat split].
  destruct (eat_xenia_effect h) as (_ & _ & _ & Hh & Hd & Hp & _). by repeat split.
Qed.

Lemma fatal_check_collisions g :
  is_fatal g = true ->
  moving g = true /\ check_collisions (move_snake g) = game_over (move_snake g).
Proof.
  unfold is_fatal, check_collisions. intros Hf.
  apply andb_true_iff in Hf as [Hm Hc]. split; [exact Hm|].
  destruct (collides_with_wall _ _); [reflexivity|].
  cbn [orb] in Hc. by rewrite Hc.
Qed.

Lemma stopped_tick h : direction h = "stop"%string -> tick h = h.
Proof.
  intros Hd. unfold tick, moving. rewrite Hd.
  by rewrite andb_false_r.
Qed.

Lemma step_head_shown e g : head_shown g -> head_shown (step e g).
Proof.
  unfold head_shown. intros Hv. destruct e as [k|]; cbn [step].
  - destruct (is_restart k) eqn:Hk.
    + assert (on_key k g = restart_game g) as -> by (by destruct k).
      destruct (restart_game_effect g) as (_ & _ & _ & -> & _). exact Hv.
    + destruct (on_key_effect k g Hk) as (_ & _ & _ & -> & _). exact Hv.
  - unfold tick. destruct (moving g); [|exact Hv].
    destruct (check_xenia_keeps (check_food (check_collisions (move_snake g))))
      as (_ & -> & _).
    destruct (check_food_keeps (check_collisions (move_snake g))) as (_ & -> & _).
    destruct (move_snake_effect g) as (_ & _ & _ & Hh & _).
    destruct (game_over_effect (move_snake g)) as (_ & _ & _ & Hg & _).
    unfold check_collisions.
    destruct (collides_with_wall _ _); [by rewrite Hg, Hh|].
    destruct (collides_with_self _); [by rewrite Hg, Hh|by rewrite Hh].
Qed.

Lemma run_head_shown evs : forall g, head_shown g -> head_shown (run evs g).
Proof.
  induction evs as [|e evs IH]; intros g Hok; cbn [run]; [exact Hok|].
  destruct (ends_process e); [exact Hok|]. apply IH, step_head_shown, Hok.
Qed.

Lemma initial_head_shown rnd : head_shown (initial rnd).
Proof.
  destruct (initial_effect rnd) as (_ & _ & _ & Hh & _).
  unfold head_shown. by rewrite Hh.
Qed.




(** C1, evaluated on the code.  The snake ate once, the next food was put
    on the origin, and the snake ran on into the wall.  In that loop body
    the wall branch ends the game and sends the head to the origin, and the
    food check that follows it finds the head on the food: the snake dies
    and eats in one and the same loop body, and the new game starts with
    ten points and a segment. *)
Lemma dies_and_eats_in_one_loop_body :
  is_fatal facing_the_wall_food_at_origin = true /\
  option_map position (food facing_the_wall_food_at_origin) = Some (0, 0) /\
  food_hit (check_collisions (move_snake facing_the_wall_food_at_origin)) = true /\
  score facing_the_wall_food_at_origin = 10 /\
  score (check_collisions (move_snake facing_the_wall_food_at_origin)) = 0 /\
  score (tick facing_the_wall_food_at_origin) = 10 /\
  foods_eaten_in_level (tick facing_the_wall_food_at_origin) = 1 /\
  body (tick facing_the_wall_food_at_origin) = [(0, 0); (1000, 1000)].
Proof. vm_compute. repeat split. Qed.

(** * Further properties of the code *)

Lemma run_invariant (P : Game -> Prop) :
  (forall e g, P g -> P (step e g)) ->
  forall evs g, P g -> P (run evs g).
Proof.
  intros Hstep. induction evs as [|e evs IH]; intros g Hg; cbn [run]; [exact Hg|].
  destruct (ends_process e); [exact Hg|]. apply IH, Hstep, Hg.
Qed.

Lemma on_key_restart k g : is_restart k = true -> on_key k g = restart_game g.
Proof. intros Hk. by destruct k. Qed.

(** ** The body shift of [move_snake] *)

Lemma follow_visible k segs : isvisible <$> follow k segs = isvisible <$> segs.
Proof.
  revert segs. induction k as [|k IH]; intros segs; simpl; [reflexivity|].
  destruct (segs !! k) as [p|]; [|reflexivity].
  rewrite IH. clear IH. generalize (S k). intros i.
  revert i. induction segs as [|s segs IHs]; intros [|i]; simpl; try reflexivity.
  f_equal. apply IHs.
Qed.

Lemma move_snake_shifts_body_aux g :
  position <$> snake_segments (move_snake g)
    = take (length (snake_segments g)) (body g).
Proof.
  destruct (move_snake_effect g) as (_ & _ & Hs & _). rewrite Hs.
  destruct (decide (snake_segments g = [])) as [Hnil|Hne].
  - unfold shifted. rewrite Hnil. reflexivity.
  - rewrite (shifted_positions g Hne). unfold body.
    destruct (snake_segments g) as [|s segs]; [done|].
    cbn [length]. replace (S (length segs) - 1)%nat with (length segs) by lia.
    reflexivity.
Qed.

(** X1. [move_snake] shifts the body by one place: afterwards the segments
    hold, in order, the positions the head and the segments before the last
    one had, so the first segment is where the head was and the old
    position of the last cell is given up.  No segment is added, removed,
    shown or hidden, and the head is displaced by the heading of the
    current direction. *)
Theorem move_snake_shifts_body (g : Game) :
  position <$> snake_segments (move_snake g)
    = take (length (snake_segments g)) (body g) /\
  isvisible <$> snake_segments (move_snake g) = isvisible <$> snake_segments g /\
  position (head (move_snake g)) =
    (xcor (head g) + fst (heading (direction g)),
     ycor (head g) + snd (heading (direction g))) /\
  isvisible (head (move_snake g)) = isvisible (head g).
Proof.
  destruct (move_snake_effect g) as (_ & _ & Hs & Hh & _).
  rewrite Hs, Hh. split; [|split; [|split; reflexivity]].
  - destruct (decide (snake_segments g = [])) as [Hnil|Hne].
    + unfold shifted. rewrite Hnil. reflexivity.
    + rewrite (shifted_positions g Hne). unfold body.
      destruct (snake_segments g) as [|s segs]; [done|].
      cbn [length]. replace (S (length segs) - 1)%nat with (length segs) by lia.
      reflexivity.
  - unfold shifted. destruct (snake_segments g) as [|s segs] eqn:E; [reflexivity|].
    rewrite <- E.
    transitivity (isvisible <$> follow (length (snake_segments g) - 1) (snake_segments g));
      [|apply follow_visible].
    generalize (follow (length (snake_segments g) - 1) (snake_segments g)).
    intros [|a l]; reflexivity.
Qed.

(** ** Directions *)

Lemma known_direction_cases d :
  known_direction d ->
  d = "stop"%string \/ d = "up"%string \/ d = "down"%string \/
  d = "left"%string \/ d = "right"%string.
Proof. unfold known_direction, cardinal. tauto. Qed.

Lemma on_key_direction k g :
  known_direction (direction g) -> known_direction (direction (on_key k g)).
Proof.
  intros Hd. destruct (is_restart k) eqn:Hk.
  - rewrite (on_key_restart k g Hk).
    destruct (restart_game_effect g) as (_ & _ & _ & _ & -> & _). by left.
  - destruct k; try discriminate Hk; cbn [on_key];
      unfold go_up, go_down, go_left, go_right, toggle_pause;
      try (destruct (negb _)); fields; try exact Hd;
      right; unfold cardinal; tauto.
Qed.

Lemma tick_direction g :
  direction (tick g) = direction g \/ direction (tick g) = "stop"%string.
Proof.
  unfold tick. destruct (moving g); [|by left].
  destruct (check_xenia_keeps (check_food (check_collisions (move_snake g)))) as (-> & _).
  destruct (check_food_keeps (check_collisions (move_snake g))) as (-> & _).
  unfold check_collisions.
  destruct (game_over_effect (move_snake g)) as (_ & _ & _ & _ & Hd & _).
  destruct (move_snake_effect g) as (_ & _ & _ & _ & Hd0 & _).
  destruct (collides_with_wall _ _); [by right|].
  destruct (collides_with_self _); [by right|by left].
Qed.

Lemma step_direction e g :
  known_direction (direction g) -> known_direction (direction (step e g)).
Proof.
  intros Hd. destruct e as [k|]; cbn [step]; [by apply on_key_direction|].
  destruct (tick_direction g) as [-> | ->]; [exact Hd|by left].
Qed.

(** X2. At every point of a run [direction] is one of the five strings
    "stop", "up", "down", "left", "right"; and whenever the loop body moves
    the snake, the direction is one of the four cardinal ones and
    [move_snake] puts the head exactly one grid unit up, down, left or
    right of where it was.  That is where the head is after the loop body
    unless the move was fatal (then the collision branch sends it to the
    origin). *)
Theorem direction_is_always_known (rnd : nat -> nat) (evs : list Event) :
  known_direction (direction (run evs (initial rnd))) /\
  (moving (run evs (initial rnd)) = true ->
     cardinal (direction (run evs (initial rnd))) /\
     (position (head (move_snake (run evs (initial rnd))))
        = (xcor (head (run evs (initial rnd))),
           ycor (head (run evs (initial rnd))) + GRID_SIZE) \/
      position (head (move_snake (run evs (initial rnd))))
        = (xcor (head (run evs (initial rnd))),
           ycor (head (run evs (initial rnd))) - GRID_SIZE) \/
      position (head (move_snake (run evs (initial rnd))))
        = (xcor (head (run evs (initial rnd))) - GRID_SIZE,
           ycor (head (run evs (initial rnd)))) \/
      position (head (move_snake (run evs (initial rnd))))
        = (xcor (head (run evs (initial rnd))) + GRID_SIZE,
           ycor (head (run evs (initial rnd))))) /\
     (is_fatal (run evs (initial rnd)) = false ->
        head (tick (run evs (initial rnd)))
          = head (move_snake (run evs (initial rnd)))) /\
     (is_fatal (run evs (initial rnd)) = true ->
        position (head (tick (run evs (initial rnd)))) = (0, 0))).
Proof.
  assert (Hk : known_direction (direction (run evs (initial rnd)))).
  { apply (run_invariant (fun g => known_direction (direction g))).
    - apply step_direction.
    - destruct (initial_effect rnd) as (_ & _ & _ & _ & -> & _). by left. }
  split; [exact Hk|]. intros Hm.
  set (g := run evs (initial rnd)) in *.
  assert (Hc : cardinal (direction g)).
  { destruct Hk as [Hs|Hc]; [|exact Hc]. unfold moving in Hm. rewrite Hs in Hm.
    by rewrite andb_false_r in Hm. }
  split; [exact Hc|].
  assert (Htick : head (tick g) = head (check_collisions (move_snake g))).
  { unfold tick. rewrite Hm.
    destruct (check_xenia_keeps (check_food (check_collisions (move_snake g))))
      as (_ & -> & _).
    by destruct (check_food_keeps (check_collisions (move_snake g))) as (_ & -> & _). }
  split; [|split].
  - rewrite move_snake_head.
    destruct (heading_cardinal _ Hc) as [E|[E|[E|E]]]; rewrite E; cbn [fst snd].
    + left. f_equal; lia.
    + right; left. f_equal; lia.
    + right; right; left. f_equal; lia.
    + right; right; right. f_equal; lia.
  - intros Hf. by rewrite Htick, (not_fatal_check_collisions g Hf Hm).
  - intros Hf. rewrite Htick.
    destruct (fatal_check_collisions g Hf) as (_ & ->).
    destruct (game_over_effect (move_snake g)) as (_ & _ & _ & -> & _).
    reflexivity.
Qed.

(** X3. No single key press turns a moving snake around: whatever key is
    handled while the direction is a cardinal one, the direction afterwards
    is not the exact opposite. *)
Theorem no_key_reverses_the_snake (k : Key) (g : Game) :
  cardinal (direction g) ->
  direction (on_key k g) <> opposite (direction g).
Proof.
  intros [Hd|[Hd|[Hd|Hd]]]; rewrite Hd;
    (destruct (is_restart k) eqn:Hk;
     [rewrite (on_key_restart k g Hk);
      destruct (restart_game_effect g) as (_ & _ & _ & _ & -> & _);
      vm_compute; discriminate
     |destruct k; try discriminate Hk; cbn [on_key];
      unfold go_up, go_down, go_left, go_right, toggle_pause, opposite;
      rewrite ?Hd; cbn [String.eqb Ascii.eqb Bool.eqb negb];
      fields; rewrite ?Hd; discriminate]).
Qed.

Lemma no_key_reverses_the_snake_witness :
  direction (on_key Key_Down (with_direction "up" (globals_at_start (tape []))))
  <> opposite (direction (with_direction "up" (globals_at_start (tape [])))).
Proof.
  apply (no_key_reverses_the_snake Key_Down
           (with_direction "up" (globals_at_start (tape [])))).
  left. reflexivity.
Defined.

(** ** Pause *)

Lemma paused_ticks n evs h :
  paused h = true -> run (replicate n Tick ++ evs) h = run evs h.
Proof.
  intros Hp. induction n as [|n IH]; [reflexivity|].
  cbn [replicate app run ends_process step].
  unfold tick, moving. rewrite Hp. cbn [negb andb]. exact IH.
Qed.

(** X4. Pausing freezes the simulation and loses nothing: while [paused]
    holds the loop body changes no global, and a pause, any number of loop
    bodies and a second pause lead back to exactly the state before. *)
Theorem pause_and_resume_is_identity (g : Game) (n : nat) :
  paused g = false ->
  run (KeyPress Key_p :: replicate n Tick ++ [KeyPress Key_P]) g = g /\
  tick (toggle_pause g) = toggle_pause g /\
  paused (toggle_pause g) = true.
Proof.
  intros Hp.
  assert (Hpaused : paused (toggle_pause g) = true) by (cbn; by rewrite Hp).
  split; [|split; [|exact Hpaused]].
  - cbn [run ends_process is_quit step on_key].
    rewrite (paused_ticks n _ _ Hpaused).
    cbn [run ends_process is_quit step on_key].
    unfold toggle_pause. fields. destruct g; cbn in *. by subst.
  - unfold tick, moving. by rewrite Hpaused.
Qed.

Lemma pause_and_resume_is_identity_witness :
  run (KeyPress Key_p :: replicate 3 Tick ++ [KeyPress Key_P]) before_first_food
  = before_first_food.
Proof.
  apply (pause_and_resume_is_identity before_first_food 3).
  vm_compute. reflexivity.
Defined.

(** ** Restart *)

Lemma placement_cell_origin : placement_cell (0, 0).
Proof. unfold placement_cell. cbn. repeat split; discriminate. Qed.

Lemma placement_cell_candidate g i : placement_cell (candidate g i).
Proof.
  unfold placement_cell, candidate. cbn [fst snd].
  destruct (range_pick_x (entropy g (2 * i + drawn g)%nat)) as [Bx Gx].
  destruct (range_pick_y (entropy g (2 * i + 1 + drawn g)%nat)) as [By Gy].
  revert Bx Gx By Gy.
  generalize (range_pick (- WIDTH / 2 + 40) (WIDTH / 2 - 40) GRID_SIZE
                (entropy g (2 * i + drawn g)%nat)).
  generalize (range_pick (- HEIGHT / 2 + 40) (HEIGHT / 2 - 40) GRID_SIZE
                (entropy g (2 * i + 1 + drawn g)%nat)).
  change (- WIDTH / 2 + 40) with (-260). change (WIDTH / 2 - 40) with 260.
  change (- HEIGHT / 2 + 40) with (-260). change (HEIGHT / 2 - 40) with 260.
  change GRID_SIZE with 20.
  intros y x Bx Gx By Gy.
  apply Z.mod_divide in Gx; [|lia]. destruct Gx as [qx Hqx].
  apply Z.mod_divide in Gy; [|lia]. destruct Gy as [qy Hqy].
  assert (Hx : x = 20 * (qx - 13)) by lia.
  assert (Hy : y = 20 * (qy - 13)) by lia.
  repeat split; try lia.
  - rewrite Hx, Z.mul_comm. apply Z.mod_mul. lia.
  - rewrite Hy, Z.mul_comm. apply Z.mod_mul. lia.
Qed.

(** Wherever the turtle was, [place_turtle_at_random] leaves it shown on a
    placement cell. *)
Lemma place_turtle_at_random_result t g :
  exists t' k,
    place_turtle_at_random t g = (t', with_drawn k g) /\
    isvisible t' = true /\ placement_cell (position t').
Proof.
  unfold place_turtle_at_random.
  destruct (place_turtle_tries_spec MAX_FOOD_TRIES t g)
    as [(i & _ & _ & _ & ->)|(_ & ->)]; eexists _, _;
    (split; [reflexivity|]); (split; [reflexivity|]).
  - rewrite position_placed. apply placement_cell_candidate.
  - apply placement_cell_origin.
Qed.

Lemma place_food_result g :
  exists f k,
    place_food g = with_food (Some f) (with_drawn k g) /\
    isvisible f = true /\ placement_cell (position f).
Proof.
  unfold place_food.
  destruct (place_turtle_at_random_result
              (match food g with Some f => f | None => new_turtle end) g)
    as (f' & k & -> & Hv & Hc). eauto.
Qed.

Lemma restart_game_board g :
  foods_eaten_in_level (restart_game g) = 0 /\
  (exists f, food (restart_game g) = Some f /\ isvisible f = true /\
             placement_cell (position f)) /\
  (forall x, xenia (restart_game g) = Some x -> isvisible x = false).
Proof.
  unfold restart_game.
  destruct (place_food_result (reset_game_state g)) as (f & k & -> & Hv & Hc).
  unfold reset_game_state. fields.
  destruct (xenia g) as [x0|] eqn:Hx; fields; rewrite ?Hx; fields.
  - split; [reflexivity|]. split; [by exists f|].
    intros x [= <-]. reflexivity.
  - split; [reflexivity|]. split; [by exists f|]. intros x. by rewrite Hx.
Qed.

(** X5. A restart resets the game but not the session: score, level counter
    and segments are cleared, the delay is [INITIAL_SPEED] again, the head
    is back on the origin and the direction is "stop", so the loop body
    does nothing until a direction key arrives; the high score and the
    pause flag are left as they were; a shown food lies on a placement
    cell and no Xenia is shown. *)
Theorem restart_game_keeps_high_score_and_pause (g : Game) :
  score (restart_game g) = 0 /\
  foods_eaten_in_level (restart_game g) = 0 /\
  snake_segments (restart_game g) = [] /\
  delay (restart_game g) = INITIAL_SPEED /\
  position (head (restart_game g)) = (0, 0) /\
  direction (restart_game g) = "stop"%string /\
  tick (restart_game g) = restart_game g /\
  high_score (restart_game g) = high_score g /\
  paused (restart_game g) = paused g /\
  (exists f, food (restart_game g) = Some f /\ isvisible f = true /\
             placement_cell (position f)) /\
  (forall x, xenia (restart_game g) = Some x -> isvisible x = false).
Proof.
  destruct (restart_game_effect g) as (Hs & Hh & Hseg & Hhead & Hd & Hp & Hdl).
  split; [exact Hs|].
  destruct (restart_game_board g) as (Hf & Hfood & Hxen).
  split; [exact Hf|]. split; [exact Hseg|]. split; [exact Hdl|].
  split; [by rewrite Hhead|]. split; [exact Hd|].
  split; [by apply stopped_tick|]. split; [exact Hh|]. split; [exact Hp|].
  split; [exact Hfood|exact Hxen].
Qed.

(** ** Level counter, score and length *)

Lemma eat_food_counter g :
  foods_eaten_in_level (eat_food g) =
  if foods_eaten_in_level g + 1 >=? LEVEL_UP_FOOD_COUNT then 0
  else foods_eaten_in_level g + 1.
Proof.
  unfold eat_food.
  match goal with |- context [place_food ?h] =>
    destruct (place_food_frame h) as (f & k & E); rewrite E; clear E end.
  match goal with |- context [place_xenia ?h] =>
    destruct (place_xenia_frame h) as (x & k' & E); rewrite E; clear E end.
  unfold update_high_score, increase_speed_on_level_progress, set_delay, spawn_segment.
  fields.
  destruct (foods_eaten_in_level g + 1 >=? LEVEL_UP_FOOD_COUNT); fields;
    destruct (score g + FOOD_SCORE >? high_score g); reflexivity.
Qed.

Lemma eat_xenia_counter g :
  foods_eaten_in_level (eat_xenia g) =
  if foods_eaten_in_level g + 1 >=? LEVEL_UP_FOOD_COUNT then 0
  else foods_eaten_in_level g + 1.
Proof.
  unfold eat_xenia, apply_xenia_effect, update_high_score,
    increase_speed_on_level_progress, set_delay, spawn_segment.
  fields.
  destruct (foods_eaten_in_level g + 1 >=? LEVEL_UP_FOOD_COUNT); fields;
    destruct (score g + XENIA_SCORE >? high_score g); reflexivity.
Qed.

Lemma on_key_counter k g :
  is_restart k = false ->
  foods_eaten_in_level (on_key k g) = foods_eaten_in_level g.
Proof.
  intros Hk. destruct k; try discriminate Hk; cbn [on_key];
    unfold go_up, go_down, go_left, go_right, toggle_pause;
    try (destruct (negb _)); reflexivity.
Qed.

Lemma counter_after_eating c :
  0 <= c < LEVEL_UP_FOOD_COUNT ->
  0 <= (if c + 1 >=? LEVEL_UP_FOOD_COUNT then 0 else c + 1) < LEVEL_UP_FOOD_COUNT.
Proof.
  unfold LEVEL_UP_FOOD_COUNT. intros Hc.
  destruct (Z.geb_spec (c + 1) 5); lia.
Qed.

Lemma step_level_ok e g : level_ok g -> level_ok (step e g).
Proof.
  unfold level_ok. intros Hok. destruct e as [k|]; cbn [step].
  - destruct (is_restart k) eqn:Hk.
    + rewrite (on_key_restart k g Hk).
      destruct (restart_game_board g) as (-> & _).
      unfold LEVEL_UP_FOOD_COUNT. lia.
    + by rewrite (on_key_counter k g Hk).
  - unfold tick. destruct (moving g); [|exact Hok].
    assert (H1 : level_ok (check_collisions (move_snake g))).
    { unfold level_ok, check_collisions.
      destruct (game_over_effect (move_snake g)) as (_ & _ & _ & _ & _ & _ & _ & Hf & _).
      destruct (move_snake_effect g) as (_ & _ & _ & _ & _ & _ & _ & Hf0 & _).
      destruct (collides_with_wall _ _); [rewrite Hf; unfold LEVEL_UP_FOOD_COUNT; lia|].
      destruct (collides_with_self _); [rewrite Hf; unfold LEVEL_UP_FOOD_COUNT; lia|].
      by rewrite Hf0. }
    assert (H2 : level_ok (check_food (check_collisions (move_snake g)))).
    { unfold check_food. destruct (food_hit _); [|exact H1].
      unfold level_ok. rewrite eat_food_counter. by apply counter_after_eating. }
    unfold check_xenia. destruct (xenia_hit _); [|exact H2].
    unfold level_ok. rewrite eat_xenia_counter. by apply counter_after_eating.
Qed.

Lemma initial_counter rnd : foods_eaten_in_level (initial rnd) = 0.
Proof.
  unfold initial.
  destruct (place_food_frame (globals_at_start rnd)) as (f & k & ->).
  match goal with |- context [place_xenia ?h] =>
    destruct (place_xenia_frame h) as (x & k' & ->) end.
  reflexivity.
Qed.

(** X6. At every point of a run the level counter is at least zero and
    below [LEVEL_UP_FOOD_COUNT]: the consumable that brings it to the
    threshold resets it in the same loop body.  Eating a food with the
    counter at [LEVEL_UP_FOOD_COUNT - 1] is a level-up (counter zero, delay
    one level down); with a lower counter it only counts. *)
Theorem level_counter_stays_below_threshold (rnd : nat -> nat) (evs : list Event) :
  0 <= foods_eaten_in_level (run evs (initial rnd)) < LEVEL_UP_FOOD_COUNT /\
  (forall h,
     (foods_eaten_in_level h = LEVEL_UP_FOOD_COUNT - 1 ->
        foods_eaten_in_level (eat_food h) = 0 /\
        delay (eat_food h) = py_max SPEED_MIN (PrimFloat.sub (delay h) SPEED_DECREMENT)) /\
     (foods_eaten_in_level h < LEVEL_UP_FOOD_COUNT - 1 ->
        foods_eaten_in_level (eat_food h) = foods_eaten_in_level h + 1 /\
        delay (eat_food h) = delay h)).
Proof.
  split.
  - apply (run_invariant level_ok); [apply step_level_ok|].
    unfold level_ok. rewrite initial_counter. unfold LEVEL_UP_FOOD_COUNT. lia.
  - intros h.
    destruct (eat_food_effect h) as (_ & _ & _ & _ & _ & _ & Hd).
    rewrite eat_food_counter, Hd.
    unfold increase_speed_on_level_progress, set_delay. fields.
    unfold LEVEL_UP_FOOD_COUNT. split; intros Hc.
    + rewrite Hc. split; reflexivity.
    + destruct (Z.geb_spec (foods_eaten_in_level h + 1) 5); [lia|]. split; reflexivity.
Qed.

Lemma score_length_grow s n a k :
  (a = 10 /\ k = 1%nat) \/ (a = 40 /\ k = 2%nat) ->
  s mod 10 = 0 /\ 10 * Z.of_nat n <= s <= 2 * 10 * Z.of_nat n ->
  (s + a) mod 10 = 0 /\
  10 * Z.of_nat (n + k) <= s + a <= 2 * 10 * Z.of_nat (n + k).
Proof.
  intros Hk [Hm Hb].
  apply Z.mod_divide in Hm; [|lia]. destruct Hm as [q Hq].
  destruct Hk as [[-> ->]|[-> ->]].
  - split; [|lia]. replace (s + 10) with ((q + 1) * 10) by lia. apply Z.mod_mul. lia.
  - split; [|lia]. replace (s + 40) with ((q + 4) * 10) by lia. apply Z.mod_mul. lia.
Qed.

Lemma step_score_matches_length e g :
  score_matches_length g -> score_matches_length (step e g).
Proof.
  unfold score_matches_length. change FOOD_SCORE with 10.
  intros Hok. destruct e as [k|]; cbn [step].
  - destruct (is_restart k) eqn:Hk.
    + rewrite (on_key_restart k g Hk).
      destruct (restart_game_effect g) as (-> & _ & -> & _).
      cbn [length]. split; [reflexivity|lia].
    + destruct (on_key_effect k g Hk) as (-> & _ & -> & _). exact Hok.
  - unfold tick. destruct (moving g); [|exact Hok].
    set (g1 := check_collisions (move_snake g)).
    assert (H1 : score g1 mod 10 = 0 /\
                 10 * Z.of_nat (length (snake_segments g1)) <= score g1
                 <= 2 * 10 * Z.of_nat (length (snake_segments g1))).
    { unfold g1, check_collisions.
      destruct (game_over_effect (move_snake g)) as (Hs & _ & Hseg & _).
      destruct (move_snake_effect g) as (Hs0 & _ & Hseg0 & _).
      destruct (collides_with_wall _ _);
        [rewrite Hs, Hseg; cbn [length]; split; [reflexivity|lia]|].
      destruct (collides_with_self _);
        [rewrite Hs, Hseg; cbn [length]; split; [reflexivity|lia]|].
      by rewrite Hs0, Hseg0, shifted_length. }
    set (g2 := check_food g1).
    assert (H2 : score g2 mod 10 = 0 /\
                 10 * Z.of_nat (length (snake_segments g2)) <= score g2
                 <= 2 * 10 * Z.of_nat (length (snake_segments g2))).
    { unfold g2, check_food. destruct (food_hit g1); [|exact H1].
      destruct (eat_food_effect g1) as (-> & _ & -> & _).
      rewrite length_app. cbn [length]. change FOOD_SCORE with 10.
      apply score_length_grow; [by left|exact H1]. }
    unfold check_xenia. destruct (xenia_hit g2); [|exact H2].
    destruct (eat_xenia_effect g2) as (-> & _ & -> & _).
    rewrite length_app. cbn [length]. change XENIA_SCORE with 40.
    apply score_length_grow; [by right|exact H2].
Qed.

(** X7. At every point of a run the score is a multiple of [FOOD_SCORE] and
    goes with the length of the snake: it is at least [FOOD_SCORE] and at
    most twice [FOOD_SCORE] for each segment (a food gives one segment for
    ten points, a Xenia two for forty, and both are cleared together). *)
Theorem score_goes_with_length (rnd : nat -> nat) (evs : list Event) :
  score (run evs (initial rnd)) mod FOOD_SCORE = 0 /\
  FOOD_SCORE * Z.of_nat (length (snake_segments (run evs (initial rnd))))
    <= score (run evs (initial rnd))
    <= 2 * FOOD_SCORE * Z.of_nat (length (snake_segments (run evs (initial rnd)))).
Proof.
  apply (run_invariant score_matches_length); [apply step_score_matches_length|].
  unfold score_matches_length.
  destruct (initial_effect rnd) as (-> & _ & -> & _).
  cbn [length]. split; [reflexivity|unfold FOOD_SCORE; lia].
Qed.

(** X8. A loop body that moves the snake changes its length by what it
    eats and by nothing else: after a fatal collision the segments are
    gone, otherwise all are kept, and then one segment is added when the
    food is hit and two when a shown Xenia is hit.  Within a game the
    snake never gets shorter. *)
Theorem snake_grows_by_what_it_eats (g : Game) :
  moving g = true ->
  length (snake_segments (tick g)) =
    ((if is_fatal g then 0 else length (snake_segments g)) + growth g)%nat /\
  (is_fatal g = false ->
     (length (snake_segments g) <= length (snake_segments (tick g)))%nat).
Proof.
  intros Hm.
  assert (Hlen : length (snake_segments (tick g)) =
    ((if is_fatal g then 0 else length (snake_segments g)) + growth g)%nat).
  { unfold tick, growth. rewrite Hm.
    set (g1 := check_collisions (move_snake g)).
    assert (H1 : length (snake_segments g1)
                 = if is_fatal g then 0%nat else length (snake_segments g)).
    { destruct (is_fatal g) eqn:Hf.
      - destruct (fatal_check_collisions g Hf) as (_ & E). unfold g1. rewrite E.
        destruct (game_over_effect (move_snake g)) as (_ & _ & -> & _). reflexivity.
      - unfold g1. rewrite (not_fatal_check_collisions g Hf Hm).
        destruct (move_snake_effect g) as (_ & _ & -> & _). apply shifted_length. }
    rewrite <- H1.
    assert (H2 : length (snake_segments (check_food g1))
                 = (length (snake_segments g1) + if food_hit g1 then 1 else 0)%nat).
    { unfold check_food. destruct (food_hit g1); [|lia].
      destruct (eat_food_effect g1) as (_ & _ & -> & _). by rewrite length_app. }
    unfold check_xenia at 1. destruct (xenia_hit (check_food g1)); [|lia].
    destruct (eat_xenia_effect (check_food g1)) as (_ & _ & -> & _).
    rewrite length_app, H2. cbn [length]. lia. }
  split; [exact Hlen|]. intros Hf. rewrite Hlen, Hf. lia.
Qed.

Lemma snake_grows_by_what_it_eats_witness :
  length (snake_segments (tick xenia_run)) = 2%nat /\
  length (snake_segments (tick before_first_food)) = (0 + growth before_first_food)%nat.
Proof.
  split; [vm_compute; reflexivity|].
  assert (Hm : moving before_first_food = true) by (vm_compute; reflexivity).
  assert (Hf : is_fatal before_first_food = false) by (vm_compute; reflexivity).
  pose proof (proj1 (snake_grows_by_what_it_eats before_first_food Hm)) as H.
  rewrite Hf in H. exact H.
Defined.

(** ** The board: everything stays on the grid *)

Lemma placement_cell_on_grid c : placement_cell c -> on_grid c.
Proof.
  intros [[Hx Hy] _]. unfold on_grid.
  split; apply Z.mod_divide; try exact Hx; try exact Hy; discriminate.
Qed.

Lemma on_grid_off_screen : on_grid OFF_SCREEN.
Proof. split; exists 50; reflexivity. Qed.

Lemma on_grid_origin : on_grid (0, 0).
Proof. split; exists 0; reflexivity. Qed.

Lemma on_grid_advance d h :
  on_grid (position h) -> on_grid (position (advance d h)).
Proof.
  unfold on_grid, position, advance. cbn [fst snd xcor ycor].
  intros [Hx Hy].
  assert (Hd : (GRID_SIZE | fst (heading d)) /\ (GRID_SIZE | snd (heading d))).
  { unfold heading.
    repeat (destruct (String.eqb d _);
            [cbn [fst snd]; split;
             first [exists 0; reflexivity | exists 1; reflexivity
                   | exists (-1); reflexivity]|]).
    split; exists 0; reflexivity. }
  split; apply Z.divide_add_r; tauto.
Qed.

Lemma place_xenia_result h :
  exists x k,
    place_xenia h = with_xenia x (with_drawn k h) /\
    (forall t, x = Some t ->
       placement_cell (position t) \/
       exists t0, xenia h = Some t0 /\ position t = position t0).
Proof.
  unfold place_xenia, random_below_quarter.
  destruct (Nat.eqb _ _).
  - match goal with |- context [place_turtle_at_random ?t ?g] =>
      destruct (place_turtle_at_random_result t g) as (x' & k & -> & _ & Hc) end.
    exists (Some x'), k. split; [reflexivity|]. intros t [= <-]. by left.
  - cbn [xenia with_drawn]. destruct (xenia h) as [x|] eqn:Hx.
    + eexists _, _. split; [reflexivity|]. intros t [= <-]. right. by exists x.
    + exists None, (S (drawn h)). split; [|discriminate].
      destruct h; cbn in *. by subst.
Qed.

Lemma eat_food_board g :
  (forall x, xenia g = Some x -> placement_cell (position x)) ->
  (exists f, food (eat_food g) = Some f /\ isvisible f = true /\
             placement_cell (position f)) /\
  (forall x, xenia (eat_food g) = Some x -> placement_cell (position x)).
Proof.
  intros Hx. unfold eat_food.
  match goal with |- context [place_food ?h] =>
    destruct (place_food_result h) as (f & k & E & Hv & Hc); rewrite E; clear E end.
  match goal with |- context [place_xenia ?h] =>
    destruct (place_xenia_result h) as (x & k' & E & Hxr); rewrite E; clear E end.
  cbn [xenia with_food with_drawn with_segments with_foods_eaten with_score
       spawn_segment] in Hxr.
  unfold update_high_score, increase_speed_on_level_progress, set_delay, spawn_segment.
  fields.
  destruct (foods_eaten_in_level g + 1 >=? LEVEL_UP_FOOD_COUNT); fields;
    destruct (score g + FOOD_SCORE >? high_score g); fields;
    (split; [by exists f|]);
    intros t Ht; (destruct (Hxr t Ht) as [Hp|(t0 & Ht0 & ->)]; [exact Hp|by apply Hx]).
Qed.

Lemma eat_xenia_board g :
  food (eat_xenia g) = food g /\
  (forall x, xenia (eat_xenia g) = Some x ->
     exists x0, xenia g = Some x0 /\ position x = position x0).
Proof.
  unfold eat_xenia, apply_xenia_effect, update_high_score,
    increase_speed_on_level_progress, set_delay, spawn_segment.
  fields.
  destruct (foods_eaten_in_level g + 1 >=? LEVEL_UP_FOOD_COUNT); fields;
    destruct (score g + XENIA_SCORE >? high_score g); fields;
    (split; [reflexivity|]);
    destruct (xenia g) as [x0|]; cbn; try discriminate;
    intros x [= <-]; by exists x0.
Qed.

Lemma on_key_board k g :
  is_restart k = false ->
  food (on_key k g) = food g /\ xenia (on_key k g) = xenia g.
Proof.
  intros Hk. destruct k; try discriminate Hk; cbn [on_key];
    unfold go_up, go_down, go_left, go_right, toggle_pause;
    try (destruct (negb _)); split; reflexivity.
Qed.

Lemma board_ok_move g : board_ok g -> board_ok (move_snake g).
Proof.
  intros (Hh & Hs & Hf & Hx).
  pose proof (move_snake_shifts_body_aux g) as Hshift.
  destruct (move_snake_effect g) as (_ & _ & _ & Hhead & _ & _ & _ & _ & Hfood & Hxen).
  unfold board_ok. rewrite Hhead, Hfood, Hxen, Hshift.
  split; [by apply on_grid_advance|]. split; [|by split].
  apply Forall_take. by constructor.
Qed.

Lemma board_ok_game_over g : board_ok g -> board_ok (game_over g).
Proof.
  intros (Hh & Hs & Hf & Hx).
  destruct (game_over_effect g) as (_ & _ & Hseg & Hhead & _ & _ & _ & _ & Hfood & Hxen).
  unfold board_ok. rewrite Hhead, Hseg, Hfood, Hxen.
  split; [apply on_grid_origin|]. split; [constructor|]. split; [exact Hf|].
  intros x. destruct (xenia g) as [x0|]; cbn; [|discriminate].
  intros [= <-]. exact (Hx x0 eq_refl).
Qed.

Lemma board_ok_check_collisions g : board_ok g -> board_ok (check_collisions g).
Proof.
  intros Hok. unfold check_collisions.
  destruct (collides_with_wall _ _); [by apply board_ok_game_over|].
  destruct (collides_with_self _); [by apply board_ok_game_over|exact Hok].
Qed.

Lemma board_ok_check_food g : board_ok g -> board_ok (check_food g).
Proof.
  intros (Hh & Hs & Hf & Hx). unfold check_food.
  destruct (food_hit g); [|exact (conj Hh (conj Hs (conj Hf Hx)))].
  destruct (eat_food_effect g) as (_ & _ & Hseg & Hhead & _).
  destruct (eat_food_board g Hx) as (Hf' & Hx').
  unfold board_ok. rewrite Hhead, Hseg.
  split; [exact Hh|]. split; [|by split].
  rewrite fmap_app. apply Forall_app. split; [exact Hs|].
  repeat constructor; apply on_grid_off_screen.
Qed.

Lemma board_ok_check_xenia g : board_ok g -> board_ok (check_xenia g).
Proof.
  intros (Hh & Hs & Hf & Hx). unfold check_xenia.
  destruct (xenia_hit g); [|exact (conj Hh (conj Hs (conj Hf Hx)))].
  destruct (eat_xenia_effect g) as (_ & _ & Hseg & Hhead & _).
  destruct (eat_xenia_board g) as (Hf' & Hx').
  unfold board_ok. rewrite Hhead, Hseg, Hf'.
  split; [exact Hh|]. split; [|split; [exact Hf|]].
  - rewrite fmap_app. apply Forall_app. split; [exact Hs|].
    repeat constructor; apply on_grid_off_screen.
  - intros x Hxs. destruct (Hx' x Hxs) as (x0 & Hx0 & ->). by apply Hx.
Qed.

Lemma board_ok_restart g : board_ok g -> board_ok (restart_game g).
Proof.
  intros (Hh & Hs & Hf & Hx).
  destruct (restart_game_effect g) as (_ & _ & Hseg & Hhead & _).
  destruct (restart_game_board g) as (_ & Hfood & _).
  unfold board_ok. rewrite Hhead, Hseg.
  split; [apply on_grid_origin|]. split; [constructor|]. split; [exact Hfood|].
  unfold restart_game.
  destruct (place_food_result (reset_game_state g)) as (f & k & -> & _).
  unfold reset_game_state. fields.
  destruct (xenia g) as [x0|] eqn:Hx0; fields; rewrite ?Hx0; fields.
  - intros x [= <-]. exact (Hx x0 eq_refl).
  - intros x. by rewrite Hx0.
Qed.

Lemma step_board_ok e g : board_ok g -> board_ok (step e g).
Proof.
  intros Hok. destruct e as [k|]; cbn [step].
  - destruct (is_restart k) eqn:Hk.
    + rewrite (on_key_restart k g Hk). by apply board_ok_restart.
    + destruct Hok as (Hh & Hs & Hf & Hx).
      destruct (on_key_effect k g Hk) as (_ & _ & Hseg & Hhead & _).
      destruct (on_key_board k g Hk) as (Hfood & Hxen).
      unfold board_ok. by rewrite Hhead, Hseg, Hfood, Hxen.
  - unfold tick. destruct (moving g); [|exact Hok].
    by apply board_ok_check_xenia, board_ok_check_food,
      board_ok_check_collisions, board_ok_move.
Qed.

Lemma initial_board_ok rnd : board_ok (initial rnd).
Proof.
  unfold initial.
  destruct (place_food_result (globals_at_start rnd)) as (f & k & -> & Hv & Hc).
  match goal with |- context [place_xenia ?h] =>
    destruct (place_xenia_result h) as (x & k' & -> & Hx) end.
  unfold board_ok. fields. cbn [globals_at_start] in *.
  split; [apply on_grid_origin|]. split; [constructor|]. split; [by exists f|].
  intros t Ht. destruct (Hx t Ht) as [Hp|(t0 & Ht0 & _)]; [exact Hp|discriminate].
Qed.

(** X9. At every point of a run the head is shown and stands on a grid
    cell inside the walls: both coordinates are multiples of [GRID_SIZE]
    within one grid unit of the wall boundary, where [collides_with_wall]
    is false. *)
Theorem head_stays_on_the_board (rnd : nat -> nat) (evs : list Event) :
  isvisible (head (run evs (initial rnd))) = true /\
  (GRID_SIZE | xcor (head (run evs (initial rnd)))) /\
  (GRID_SIZE | ycor (head (run evs (initial rnd)))) /\
  - WIDTH / 2 + GRID_SIZE <= xcor (head (run evs (initial rnd))) <= WIDTH / 2 - GRID_SIZE /\
  - HEIGHT / 2 + GRID_SIZE <= ycor (head (run evs (initial rnd))) <= HEIGHT / 2 - GRID_SIZE /\
  collides_with_wall (xcor (head (run evs (initial rnd))))
                     (ycor (head (run evs (initial rnd)))) = false.
Proof.
  pose proof (run_head_shown evs _ (initial_head_shown rnd)) as Hv.
  pose proof (run_invariant board_ok step_board_ok evs _ (initial_board_ok rnd))
    as ([Hx Hy] & _).
  destruct (run_body_ok evs _ (initial_body_ok rnd)) as (live & parked & _ & _ & Hin).
  apply Forall_cons in Hin as [[Bx By] _].
  cbn [position fst snd] in Hx, Hy, Bx, By.
  split; [exact Hv|]. split; [exact Hx|]. split; [exact Hy|].
  assert (Hb : - WIDTH / 2 + GRID_SIZE <= xcor (head (run evs (initial rnd)))
                 <= WIDTH / 2 - GRID_SIZE /\
               - HEIGHT / 2 + GRID_SIZE <= ycor (head (run evs (initial rnd)))
                 <= HEIGHT / 2 - GRID_SIZE).
  { revert Hx Hy Bx By.
    generalize (xcor (head (run evs (initial rnd)))).
    generalize (ycor (head (run evs (initial rnd)))).
    change (- WIDTH / 2) with (-300). change (WIDTH / 2) with 300.
    change (- HEIGHT / 2) with (-300). change (HEIGHT / 2) with 300.
    change GRID_SIZE with 20.
    intros y x [p Hp] [q Hq] Bx By. lia. }
  destruct Hb as [Hbx Hby]. split; [exact Hbx|]. split; [exact Hby|].
  by apply inside_no_wall.
Qed.

Lemma placement_cell_no_wall c :
  placement_cell c -> collides_with_wall (fst c) (snd c) = false.
Proof.
  intros (_ & Bx & By). apply inside_no_wall.
  - revert Bx. change (- WIDTH / 2) with (-300). change (WIDTH / 2) with 300.
    change GRID_SIZE with 20. lia.
  - revert By. change (- HEIGHT / 2) with (-300). change (HEIGHT / 2) with 300.
    change GRID_SIZE with 20. lia.
Qed.

(** X10. At every point of a run there is a food turtle, it is shown, and it
    lies on a grid cell of the placement range, fallback included, where
    the head can go without a wall collision; the same holds for the
    position of the Xenia turtle once one exists. *)
Theorem food_is_always_on_the_board (rnd : nat -> nat) (evs : list Event) :
  (exists f, food (run evs (initial rnd)) = Some f /\
     isvisible f = true /\ placement_cell (position f) /\
     collides_with_wall (xcor f) (ycor f) = false) /\
  (forall x, xenia (run evs (initial rnd)) = Some x ->
     placement_cell (position x) /\
     collides_with_wall (xcor x) (ycor x) = false).
Proof.
  pose proof (run_invariant board_ok step_board_ok evs _ (initial_board_ok rnd))
    as (_ & _ & (f & Hf & Hv & Hc) & Hx).
  split.
  - exists f. split; [exact Hf|]. split; [exact Hv|]. split; [exact Hc|].
    exact (placement_cell_no_wall _ Hc).
  - intros x Hxs. split; [by apply Hx|].
    exact (placement_cell_no_wall _ (Hx x Hxs)).
Qed.

(** ** The hit tests on the grid *)

Lemma grid_near a b r :
  on_grid (position a) -> on_grid (position b) ->
  0 < r <= GRID_SIZE ->
  distance_lt a b r = true <-> position a = position b.
Proof.
  unfold on_grid, position, distance_lt, distance_squared. cbn [fst snd].
  change GRID_SIZE with 20. intros [[p Hp] [q Hq]] [[p' Hp'] [q' Hq']] Hr.
  rewrite Z.ltb_lt. split.
  - intros Hd. rewrite Hp, Hq, Hp', Hq' in *.
    assert (Hr2 : r * r <= 400) by nia.
    set (u := p - p'). set (v := q - q').
    assert (E : (p * 20 - p' * 20) * (p * 20 - p' * 20)
                + (q * 20 - q' * 20) * (q * 20 - q' * 20)
                = 400 * (u * u + v * v)) by (unfold u, v; ring).
    rewrite E in Hd.
    assert (Hu : 0 <= u * u) by apply Z.square_nonneg.
    assert (Hv : 0 <= v * v) by apply Z.square_nonneg.
    assert (Hu0 : u * u = 0) by lia. assert (Hv0 : v * v = 0) by lia.
    apply Z.mul_eq_0 in Hu0, Hv0.
    f_equal; unfold u, v in *; lia.
  - intros [= -> ->]. nia.
Qed.

Lemma self_hit_exact h :
  board_ok h ->
  collides_with_self h = true <->
  position (head h) ∈ position <$> snake_segments h.
Proof.
  intros (Hh & Hs & _). unfold collides_with_self.
  rewrite existsb_exists, list_elem_of_fmap. split.
  - intros (seg & Hin & Hd). exists seg. apply list_elem_of_In in Hin.
    split; [|exact Hin].
    apply (grid_near (head h) seg (GRID_SIZE - 2)); [exact Hh| |done|exact Hd].
    rewrite Forall_forall in Hs. apply Hs. by apply list_elem_of_fmap_2.
  - intros (seg & Hpos & Hin). exists seg. split; [by apply list_elem_of_In|].
    apply grid_near; [exact Hh| |done|exact Hpos].
    rewrite Forall_forall in Hs. apply Hs. by apply list_elem_of_fmap_2.
Qed.

Lemma food_hit_exact h :
  board_ok h ->
  food_hit h = true <-> exists f, food h = Some f /\ position f = position (head h).
Proof.
  intros (Hh & _ & (f & Hf & _ & Hc) & _). unfold food_hit. rewrite Hf.
  rewrite (grid_near (head h) f GRID_SIZE);
    [|exact Hh|by apply placement_cell_on_grid|done].
  split.
  - intros Hp. by exists f.
  - intros (f' & [= <-] & Hp). by symmetry.
Qed.

Lemma xenia_hit_exact h :
  board_ok h ->
  xenia_hit h = true <->
  exists x, xenia h = Some x /\ isvisible x = true /\ position x = position (head h).
Proof.
  intros (Hh & _ & _ & Hx). unfold xenia_hit.
  destruct (xenia h) as [x|]; [|split; [discriminate|by intros (? & ? & _)]].
  rewrite andb_true_iff.
  rewrite (grid_near (head h) x GRID_SIZE);
    [|exact Hh|by apply placement_cell_on_grid, Hx|done].
  split.
  - intros [Hv Hp]. by exists x.
  - intros (x' & [= <-] & Hv & Hp). by split.
Qed.

(** X11. On the states a run goes through, the tolerance tests of the loop
    body are exact: after the move, [collides_with_self] holds exactly when
    the head is on the cell of a segment; after the collision branches the
    food test holds exactly when the head is on the food's cell; and after
    the food branch the Xenia test holds exactly when a shown Xenia is on
    the head's cell. *)
Theorem hit_tests_are_cell_equality (rnd : nat -> nat) (evs : list Event) :
  (collides_with_self (move_snake (run evs (initial rnd))) = true <->
   position (head (move_snake (run evs (initial rnd))))
     ∈ position <$> snake_segments (move_snake (run evs (initial rnd)))) /\
  (food_hit (check_collisions (move_snake (run evs (initial rnd)))) = true <->
   exists f,
     food (check_collisions (move_snake (run evs (initial rnd)))) = Some f /\
     position f = position (head (check_collisions (move_snake (run evs (initial rnd)))))) /\
  (xenia_hit (check_food (check_collisions (move_snake (run evs (initial rnd))))) = true <->
   exists x,
     xenia (check_food (check_collisions (move_snake (run evs (initial rnd))))) = Some x /\
     isvisible x = true /\
     position x
       = position (head (check_food (check_collisions (move_snake (run evs (initial rnd))))))).
Proof.
  pose proof (run_invariant board_ok step_board_ok evs _ (initial_board_ok rnd)) as H.
  apply board_ok_move in H. split; [by apply self_hit_exact|].
  apply board_ok_check_collisions in H. split; [by apply food_hit_exact|].
  apply board_ok_check_food in H. by apply xenia_hit_exact.
Qed.

(** ** The scoreboard *)

Lemma delay_levels_speed d :
  In d delay_levels ->
  PrimFloat.eqb d 0%float = false /\
  PrimFloat.ltb 0%float d = true /\
  PrimFloat.leb (PrimFloat.div 1%float INITIAL_SPEED) (PrimFloat.div 1%float d) = true /\
  PrimFloat.leb (PrimFloat.div 1%float d) (PrimFloat.div 1%float SPEED_MIN) = true.
Proof.
  intros H. vm_compute in H.
  repeat (destruct H as [H|H]; [subst d; vm_compute; tauto|]).
  destruct H.
Qed.

(** X12. The division [1/delay] of [draw_scoreboard] never raises: at every
    point of a run the delay is above zero, and the speed shown lies
    between [1/INITIAL_SPEED] and [1/SPEED_MIN] steps per second. *)
Theorem scoreboard_speed_is_defined (rnd : nat -> nat) (evs : list Event) :
  PrimFloat.ltb 0%float (delay (run evs (initial rnd))) = true /\
  exists v,
    scoreboard_speed (run evs (initial rnd)) = Some v /\
    PrimFloat.leb (PrimFloat.div 1%float INITIAL_SPEED) v = true /\
    PrimFloat.leb v (PrimFloat.div 1%float SPEED_MIN) = true.
Proof.
  pose proof (run_delay_ok evs _ (initial_delay_ok rnd)) as Hok.
  destruct (delay_levels_speed _ Hok) as (Hz & Hpos & Hlo & Hhi).
  split; [exact Hpos|]. unfold scoreboard_speed. rewrite Hz.
  eexists. split; [reflexivity|]. by split.
Qed.

(** ** How the resets compose *)

(** X13. The game-over branch leaves the globals exactly as
    [reset_game_state] alone does (what it sets before calling it is set
    again there); resetting twice is resetting once; and a restart request
    after a game over gives the same state as a restart request instead of
    it. *)
Theorem game_over_is_a_reset (g : Game) :
  game_over g = reset_game_state g /\
  reset_game_state (reset_game_state g) = reset_game_state g /\
  restart_game (game_over g) = restart_game g.
Proof.
  assert (H1 : game_over g = reset_game_state g).
  { destruct g as [dl sc hs segs d fo [x|] pa fe hd en dr];
      vm_compute; reflexivity. }
  assert (H2 : reset_game_state (reset_game_state g) = reset_game_state g).
  { destruct g as [dl sc hs segs d fo [x|] pa fe hd en dr];
      vm_compute; reflexivity. }
  split; [exact H1|]. split; [exact H2|].
  unfold restart_game. by rewrite H1, H2.
Qed.

(** ** Consumables under the head *)

Lemma square_below_400 d : d * d < 20 * 20 -> Z.abs d < 20.
Proof.
  intros Hd. destruct (Z.lt_ge_cases (Z.abs d) 20) as [Hlt|Hge]; [exact Hlt|].
  exfalso. pose proof (Z.square_le_mono_nonneg 20 (Z.abs d) ltac:(lia) Hge) as Hsq.
  replace (Z.abs d * Z.abs d) with (d * d) in Hsq by lia. lia.
Qed.

Lemma near_overlaps (a b : Turtle) :
  distance_lt a b GRID_SIZE = true -> overlaps (xcor b) (ycor b) a = true.
Proof.
  unfold distance_lt, distance_squared, overlaps. change GRID_SIZE with 20.
  rewrite Z.ltb_lt, andb_true_iff, !Z.ltb_lt. intros Hd.
  assert (Hx : 0 <= (xcor a - xcor b) * (xcor a - xcor b)) by apply Z.square_nonneg.
  assert (Hy : 0 <= (ycor a - ycor b) * (ycor a - ycor b)) by apply Z.square_nonneg.
  split; apply square_below_400; lia.
Qed.

(** X14. [place_food] does not put the food within reach of the head, except
    through the fallback: if right after it the head is within [GRID_SIZE]
    of the food, then all [MAX_FOOD_TRIES] candidates were rejected and the
    food is on the origin. *)
Theorem place_food_avoids_the_head (g : Game) :
  food_hit (place_food g) = true ->
  (forall j, (j < MAX_FOOD_TRIES)%nat -> taken g j = true) /\
  option_map position (food (place_food g)) = Some (0, 0).
Proof.
  unfold place_food, place_turtle_at_random.
  set (f := match food g with Some f => f | None => new_turtle end).
  destruct (place_turtle_tries_spec MAX_FOOD_TRIES f g)
    as [(i & Hi & _ & Hfree & ->)|(Hall & ->)].
  - unfold food_hit. fields. intros Hhit. exfalso.
    apply near_overlaps in Hhit. cbn [xcor ycor showturtle goto] in Hhit.
    unfold taken, placement_collides in Hfree. rewrite Hhit in Hfree.
    discriminate.
  - intros _. split; [exact Hall|reflexivity].
Qed.

Lemma place_food_avoids_the_head_witness :
  option_map position (food (place_food (globals_at_start (fun _ => 13%nat))))
  = Some (0, 0).
Proof.
  apply (place_food_avoids_the_head (globals_at_start (fun _ => 13%nat))).
  vm_compute. reflexivity.
Defined.

(** X15. A Xenia is eaten at most once: after the Xenia branch of the loop
    body no shown Xenia is within reach of the head, whether the branch was
    taken (the Xenia is hidden) or not. *)
Theorem xenia_is_eaten_once (g : Game) :
  xenia_hit (check_xenia g) = false /\
  (xenia_hit g = true ->
     score (check_xenia g) = score g + XENIA_SCORE /\
     forall x, xenia (check_xenia g) = Some x -> isvisible x = false).
Proof.
  assert (Hhidden : forall x, xenia (eat_xenia g) = Some x -> isvisible x = false).
  { unfold eat_xenia, apply_xenia_effect, update_high_score,
      increase_speed_on_level_progress, set_delay, spawn_segment.
    fields.
    destruct (foods_eaten_in_level g + 1 >=? LEVEL_UP_FOOD_COUNT); fields;
      destruct (score g + XENIA_SCORE >? high_score g); fields;
      destruct (xenia g) as [x0|]; cbn; try discriminate;
      intros x [= <-]; reflexivity. }
  unfold check_xenia. destruct (xenia_hit g) eqn:Hhit.
  - split.
    + unfold xenia_hit. destruct (xenia (eat_xenia g)) as [x|] eqn:Hx; [|reflexivity].
      by rewrite (Hhidden x eq_refl).
    + intros _. split; [apply eat_xenia_effect|exact Hhidden].
  - split; [exact Hhit|discriminate].
Qed.

(** ** The speed curve *)

Lemma level_up_delay n g :
  delay (Nat.iter n level_up g)
  = Nat.iter n (fun d => py_max SPEED_MIN (PrimFloat.sub d SPEED_DECREMENT)) (delay g).
Proof.
  induction n as [|n IH]; [reflexivity|].
  rewrite !Nat.iter_succ, <- IH. reflexivity.
Qed.

(** X16. From [INITIAL_SPEED] the delay goes strictly down with each of the
    first eighteen level-ups, is exactly [SPEED_MIN] after the eighteenth,
    and stays there for every level-up after it. *)
Theorem speed_floor_is_reached_after_eighteen_levels (g : Game) (n : nat) :
  delay g = INITIAL_SPEED ->
  ((n < 18)%nat ->
     PrimFloat.ltb (delay (Nat.iter (S n) level_up g)) (delay (Nat.iter n level_up g)) = true /\
     PrimFloat.ltb SPEED_MIN (delay (Nat.iter n level_up g)) = true) /\
  ((18 <= n)%nat -> delay (Nat.iter n level_up g) = SPEED_MIN).
Proof.
  intros Hd. rewrite !level_up_delay, Hd. split.
  - intros Hn.
    do 18 (destruct n as [|n]; [vm_compute; split; reflexivity|]). lia.
  - intros Hn. replace n with ((n - 18) + 18)%nat by lia.
    generalize (n - 18)%nat. clear n Hn. intros m.
    rewrite Nat.iter_add.
    assert (H18 : Nat.iter 18 (fun d => py_max SPEED_MIN (PrimFloat.sub d SPEED_DECREMENT))
                    INITIAL_SPEED = SPEED_MIN) by (vm_compute; reflexivity).
    rewrite H18. induction m as [|m IH]; [reflexivity|].
    rewrite Nat.iter_succ, IH. vm_compute. reflexivity.
Qed.

Lemma speed_floor_is_reached_after_eighteen_levels_witness :
  delay (Nat.iter 20 level_up (globals_at_start (tape []))) = SPEED_MIN.
Proof.
  apply (speed_floor_is_reached_after_eighteen_levels (globals_at_start (tape [])) 20).
  - reflexivity.
  - lia.
Defined.
